(** * A shallow embedding of the Thumb assembler of [src/assembler.ts]

    The development follows the source file top to bottom: the JavaScript
    primitives the assembler relies on (strings, numbers, 32-bit integer
    operators, [parseInt], regular expressions), the argument converters,
    the instruction table [ops], the bit-template parser [getOpCode], the
    two-pass engine [assembleInternal] / [assemble] and the public entry
    [assembleBlock].  The compiled build [bin/assembler.js] carries the same
    engine with a different [assembleBlock]; it is embedded in [Module Bin].

    Strings are sequences of 8-bit characters read as the code points
    U+0000 .. U+00FF. *)

From Stdlib Require Import ZArith Lia Ascii.
From Stdlib Require String.
From stdpp Require Import base strings list gmap.

Local Open Scope Z_scope.

(* ===================================================================== *)
(** ** JavaScript strings *)
(* ===================================================================== *)

Module JsString.

Definition code (c : ascii) : Z := Z.of_N (Ascii.N_of_ascii c).

Definition char_eqb (a b : ascii) : bool := Ascii.eqb a b.

(** WhiteSpace and LineTerminator code points below U+0100:
    TAB, LF, VT, FF, CR, SPACE and NBSP. *)
Definition is_white_space (c : ascii) : bool :=
  let n := code c in
  ((9 <=? n) && (n <=? 13)) || (n =? 32) || (n =? 160).

Fixpoint trimStart (s : string) : string :=
  match s with
  | String c s' => if is_white_space c then trimStart s' else s
  | EmptyString => EmptyString
  end.

(** [trimEnd] keeps a character when something that is not white space
    follows it or when it is itself not white space. *)
Fixpoint trimEnd (s : string) : string :=
  match s with
  | String c s' =>
      match trimEnd s' with
      | EmptyString => if is_white_space c then EmptyString else String c EmptyString
      | t => String c t
      end
  | EmptyString => EmptyString
  end.

Definition trim (s : string) : string := trimEnd (trimStart s).

Definition length (s : string) : Z := Z.of_nat (String.length s).

(** [s.indexOf(c)] for a one-character needle: -1 when absent. *)
Fixpoint indexOf_from (i : Z) (s : string) (c : ascii) : Z :=
  match s with
  | String a s' => if char_eqb a c then i else indexOf_from (i + 1) s' c
  | EmptyString => -1
  end.

Definition indexOf (s : string) (c : ascii) : Z := indexOf_from 0 s c.

(** [s.substr(start)] and [s.substr(start, len)]: a negative [start]
    counts from the end, and both are clamped to the string. *)
Definition substr_start (s : string) (start : Z) : Z :=
  if start <? 0 then Z.max (length s + start) 0 else Z.min start (length s).

Definition substr (s : string) (start : Z) (len : option Z) : string :=
  let b := substr_start s start in
  let n := match len with
           | Some l => Z.min (Z.max l 0) (length s - b)
           | None => length s - b
           end in
  String.substring (Z.to_nat b) (Z.to_nat n) s.

(** [s[0]]: the first character, or [undefined] on the empty string. *)
Definition head (s : string) : option ascii :=
  match s with
  | String c _ => Some c
  | EmptyString => None
  end.

(** [s.replace(/[ \t]/g, empty)]: every space and tab removed *)
Fixpoint remove_blanks (s : string) : string :=
  match s with
  | String c s' =>
      if char_eqb c " "%char || char_eqb c "009"%char
      then remove_blanks s' else String c (remove_blanks s')
  | EmptyString => EmptyString
  end.

(** [s.split(",")]: never empty, the empty string splits into one empty piece. *)
Fixpoint split_on (sep : ascii) (s : string) : list string :=
  match s with
  | String c s' =>
      if char_eqb c sep then EmptyString :: split_on sep s'
      else match split_on sep s' with
           | p :: ps => String c p :: ps
           | [] => [String c EmptyString]
           end
  | EmptyString => [EmptyString]
  end.

(** Properties every plain object inherits from [Object.prototype];
    the [in] operator and member reads see them. *)
Definition object_prototype_keys : list string :=
  [ "constructor"; "__defineGetter__"; "__defineSetter__"; "hasOwnProperty";
    "__lookupGetter__"; "__lookupSetter__"; "isPrototypeOf";
    "propertyIsEnumerable"; "toString"; "valueOf"; "__proto__";
    "toLocaleString" ].

Definition inherited (k : string) : bool :=
  existsb (String.eqb k) object_prototype_keys.

End JsString.

(* ===================================================================== *)
(** ** JavaScript numbers *)
(* ===================================================================== *)

(** Every number the assembler handles is an integer, an infinity or NaN:
    values come from [parseInt], from addresses and from sums and
    differences of those.  [Fin z] stands for the double of value [z]
    (negative zero is identified with zero: no operation used here tells
    them apart). *)
Inductive number : Type :=
| NaN
| Infinity (negative : bool)
| Fin (z : Z).

Module JsNumber.

(** Round a non-negative integer to the nearest double, ties to even. *)
Definition round_nonneg (n : Z) : number :=
  if n <? 2 ^ 53 then Fin n
  else
    let e := Z.log2 n - 52 in
    let q := Z.shiftr n e in
    let r := Z.land n (2 ^ e - 1) in
    let half := 2 ^ (e - 1) in
    let q' := if (half <? r) || ((half =? r) && Z.odd q) then q + 1 else q in
    let v := q' * 2 ^ e in
    if 2 ^ 1024 <=? v then Infinity false else Fin v.

Definition negate (x : number) : number :=
  match x with
  | NaN => NaN
  | Infinity b => Infinity (negb b)
  | Fin z => Fin (- z)
  end.

Definition of_Z (z : Z) : number :=
  if z <? 0 then negate (round_nonneg (- z)) else round_nonneg z.

Definition add (x y : number) : number :=
  match x, y with
  | NaN, _ | _, NaN => NaN
  | Infinity a, Infinity b => if Bool.eqb a b then Infinity a else NaN
  | Infinity a, Fin _ | Fin _, Infinity a => Infinity a
  | Fin a, Fin b => of_Z (a + b)
  end.

Definition sub (x y : number) : number := add x (negate y).

(** [x <= y]; every comparison with NaN is false. *)
Definition leb (x y : number) : bool :=
  match x, y with
  | NaN, _ | _, NaN => false
  | Infinity true, _ => true
  | _, Infinity false => true
  | Infinity false, _ => false
  | _, Infinity true => false
  | Fin a, Fin b => a <=? b
  end.

Definition ltb (x y : number) : bool :=
  match x, y with
  | NaN, _ | _, NaN => false
  | Infinity a, Infinity b => a && negb b
  | Infinity a, Fin _ => a
  | Fin _, Infinity b => negb b
  | Fin a, Fin b => a <? b
  end.

Definition geb (x y : number) : bool := leb y x.

Definition wrap32 (z : Z) : Z := (z + 2 ^ 31) mod 2 ^ 32 - 2 ^ 31.

(** ToInt32 and ToUint32 *)
Definition ToInt32 (x : number) : Z :=
  match x with
  | Fin z => wrap32 z
  | _ => 0
  end.

Definition ToUint32 (x : number) : Z :=
  match x with
  | Fin z => z mod 2 ^ 32
  | _ => 0
  end.

End JsNumber.

(** The 32-bit integer operators, on operands already converted by
    ToInt32 (an integer literal or the result of another such operator
    converts to itself). *)
Module Int32.

Definition wrap := JsNumber.wrap32.

Definition or (a b : Z) : Z := Z.lor (wrap a) (wrap b).
Definition and (a b : Z) : Z := Z.land (wrap a) (wrap b).
Definition shl (a n : Z) : Z := wrap (Z.shiftl (wrap a) (Z.land n 31)).
Definition shr (a n : Z) : Z := Z.shiftr (wrap a) (Z.land n 31).
Definition ushr (a n : Z) : Z := Z.shiftr (a mod 2 ^ 32) (Z.land n 31).

End Int32.

Infix "<<" := Int32.shl (at level 30, right associativity) : Z_scope.
Infix ">>" := Int32.shr (at level 30, right associativity) : Z_scope.
Infix ">>>" := Int32.ushr (at level 30, right associativity) : Z_scope.
Infix ".&" := Int32.and (at level 40, left associativity) : Z_scope.
Infix ".|" := Int32.or (at level 50, left associativity) : Z_scope.

(* ===================================================================== *)
(** ** [parseInt] and [Number.prototype.toString(16)] *)
(* ===================================================================== *)

Module JsParse.
Import JsString.

Definition digit_value (c : ascii) : option Z :=
  let n := code c in
  if (48 <=? n) && (n <=? 57) then Some (n - 48)
  else if (97 <=? n) && (n <=? 122) then Some (n - 87)
  else if (65 <=? n) && (n <=? 90) then Some (n - 55)
  else None.

(** The longest prefix of radix-[R] digits, as [Some] of its value, or
    [None] when that prefix is empty. *)
Fixpoint digits (R : Z) (s : string) (acc : option Z) : option Z :=
  match s with
  | String c s' =>
      match digit_value c with
      | Some d =>
          if d <? R
          then digits R s' (Some (match acc with Some a => a * R + d | None => d end))
          else acc
      | None => acc
      end
  | EmptyString => acc
  end.

Definition strip_hex_prefix (s : string) : option string :=
  match s with
  | String "0" (String x s') =>
      if char_eqb x "x" || char_eqb x "X" then Some s' else None
  | _ => None
  end.

(** [parseInt(s, radix)]; a [null] radix is radix 0. *)
Definition parseInt (s : string) (radix : Z) : number :=
  let s1 := trimStart s in
  let '(negative, s2) :=
    match s1 with
    | String "-" t => (true, t)
    | String "+" t => (false, t)
    | _ => (false, s1)
    end in
  if negb (radix =? 0) && ((radix <? 2) || (36 <? radix)) then NaN
  else
    let '(R, s3) :=
      if (radix =? 0) || (radix =? 16) then
        match strip_hex_prefix s2 with
        | Some t => (16, t)
        | None => (if radix =? 0 then 10 else radix, s2)
        end
      else (radix, s2) in
    match digits R s3 None with
    | Some v =>
        if negative then JsNumber.negate (JsNumber.round_nonneg v)
        else JsNumber.round_nonneg v
    | None => NaN
    end.

Definition hex_digit (d : Z) : ascii :=
  Ascii.ascii_of_N (Z.to_N (if d <? 10 then 48 + d else 87 + d)).

Fixpoint hex_pos (fuel : nat) (z : Z) (acc : string) : string :=
  match fuel with
  | O => acc
  | S fuel' =>
      let acc' := String (hex_digit (z mod 16)) acc in
      if z <? 16 then acc' else hex_pos fuel' (z / 16) acc'
  end.

(** [x.toString(16)] *)
Definition toString16 (x : number) : string :=
  match x with
  | NaN => "NaN"
  | Infinity b => if b then "-Infinity" else "Infinity"
  | Fin z =>
      if z <? 0 then String "-" (hex_pos (S (Z.to_nat (Z.log2 (- z)))) (- z) EmptyString)
      else hex_pos (S (Z.to_nat (Z.log2 z))) z EmptyString
  end.

End JsParse.

(* ===================================================================== *)
(** ** Regular expressions ([String.prototype.match], no [g] flag) *)
(* ===================================================================== *)

Module RegExp.
Import JsString.

(** One-character atoms: a literal, [.], or a class [[...]] / [[^...]]
    given by its ranges. *)
Inductive atom : Type :=
| Lit (c : ascii)
| Dot
| Class (negated : bool) (ranges : list (ascii * ascii)).

(** The patterns of the instruction table quantify atoms only. *)
Inductive regexp : Type :=
| Eps
| Atom (a : atom)
| Star (a : atom)
| Plus (a : atom)
| Seq (r1 r2 : regexp)
| Alt (r1 r2 : regexp)
| Group (r : regexp)
| Bol
| Eol.

Definition in_range (c : ascii) (r : ascii * ascii) : bool :=
  (code (fst r) <=? code c) && (code c <=? code (snd r)).

Definition atom_matches (a : atom) (c : ascii) : bool :=
  match a with
  | Lit x => char_eqb c x
  | Dot => negb ((code c =? 10) || (code c =? 13))
  | Class negated ranges => xorb negated (existsb (in_range c) ranges)
  end.

(** A continuation receives the position reached, the rest of the input
    and the captures closed so far; it answers with the end position of
    the whole match and all captures. *)
Definition cont : Type := nat -> string -> list string -> option (nat * list string).

(** Greedy repetition: take one more character first, give it back when
    the continuation fails. *)
Fixpoint star (a : atom) (k : cont) (pos : nat) (rest : string)
    (caps : list string) {struct rest} : option (nat * list string) :=
  match rest with
  | String c rest' =>
      if atom_matches a c then
        match star a k (S pos) rest' caps with
        | Some m => Some m
        | None => k pos rest caps
        end
      else k pos rest caps
  | EmptyString => k pos rest caps
  end.

Definition one (a : atom) (k : cont) : cont :=
  fun pos rest caps =>
    match rest with
    | String c rest' => if atom_matches a c then k (S pos) rest' caps else None
    | EmptyString => None
    end.

(** Backtracking matcher, alternatives left to right. *)
Fixpoint run (r : regexp) (k : cont) : cont :=
  fun pos rest caps =>
    match r with
    | Eps => k pos rest caps
    | Atom a => one a k pos rest caps
    | Star a => star a k pos rest caps
    | Plus a => one a (star a k) pos rest caps
    | Seq r1 r2 => run r1 (run r2 k) pos rest caps
    | Alt r1 r2 =>
        match run r1 k pos rest caps with
        | Some m => Some m
        | None => run r2 k pos rest caps
        end
    | Group r1 =>
        run r1 (fun pos' rest' caps' =>
                  k pos' rest' (caps' ++ [String.substring 0 (pos' - pos) rest]))
            pos rest caps
    | Bol => if Nat.eqb pos 0 then k pos rest caps else None
    | Eol => match rest with EmptyString => k pos rest caps | _ => None end
    end.

Definition accept : cont := fun pos _ caps => Some (pos, caps).

(** A match starting exactly at [pos]: the array [[m0; m1; ...]]. *)
Definition match_at (r : regexp) (pos : nat) (rest : string) : option (list string) :=
  match run r accept pos rest [] with
  | Some (pos', caps) => Some (String.substring 0 (pos' - pos) rest :: caps)
  | None => None
  end.

(** The leftmost start position that matches wins. *)
Fixpoint search (r : regexp) (pos : nat) (rest : string) : option (list string) :=
  match match_at r pos rest with
  | Some m => Some m
  | None =>
      match rest with
      | String _ rest' => search r (S pos) rest'
      | EmptyString => None
      end
  end.

(** [s.match(r)]: [None] is [null]. *)
Definition js_match (s : string) (r : regexp) : option (list string) :=
  search r 0%nat s.

(** Does the pattern contain [^]? *)
Fixpoint anchored (r : regexp) : bool :=
  match r with
  | Bol => true
  | Seq r1 r2 | Alt r1 r2 => anchored r1 || anchored r2
  | Group r1 => anchored r1
  | _ => false
  end.

(** Building blocks of the table's patterns *)
Fixpoint seq (rs : list regexp) : regexp :=
  match rs with
  | [] => Eps
  | [r] => r
  | r :: rs' => Seq r (seq rs')
  end.

Fixpoint lit (s : string) : regexp :=
  match s with
  | EmptyString => Eps
  | String c EmptyString => Atom (Lit c)
  | String c s' => Seq (Atom (Lit c)) (lit s')
  end.

Definition digit : atom := Class false [("0", "9")]%char.
Definition hexdigit : atom := Class false [("0", "9"); ("A", "F"); ("a", "f")]%char.
Definition ident_start : atom := Class false [("a", "z"); ("A", "Z"); ("_", "_")]%char.
Definition ident_char : atom :=
  Class false [("0", "9"); ("a", "z"); ("A", "Z"); ("_", "_")]%char.
Definition not_comma : atom := Class true [(",", ",")]%char.

(** the group [(r[0-7])] *)
Definition lo_reg : regexp := Group (Seq (Atom (Lit "r")) (Atom (Class false [("0", "7")]%char))).
(** the group [(#[0-9]+)] *)
Definition imm : regexp := Group (Seq (Atom (Lit "#")) (Plus digit)).
(** a group holding an identifier: [[a-zA-Z_]] then any number of [[0-9a-zA-Z_]] *)
Definition label : regexp := Group (Seq (Atom ident_start) (Star ident_char)).
(** a group holding an identifier, a plus sign and decimal digits *)
Definition label_plus : regexp :=
  Group (seq [Atom ident_start; Star ident_char; Atom (Lit "+"); Plus digit]).
(** the group [([^,]+)] *)
Definition field : regexp := Group (Plus not_comma).
(** a group holding any run of [.] *)
Definition anything : regexp := Group (Star Dot).

End RegExp.

(* ===================================================================== *)
(** ** Thrown values *)
(* ===================================================================== *)

(** A message is the concatenation the source builds; operands that are
    not strings are kept as they are: a number, or the converter function
    [reg], which two messages concatenate in place of the offending text. *)
Inductive piece : Type :=
| Txt (s : string)
| Num (n : number)
| Fun_reg.

Definition message : Type := list piece.

Inductive thrown : Type :=
| Error (msg : message)       (* throw new Error(msg) *)
| Thrown (msg : message)      (* throw msg            *)
| TypeError.                  (* raised by the runtime *)

Definition result (A : Type) : Type := thrown + A.

Definition label_table : Type := gmap string Z.

(** [k in o] for a plain object [o] with own properties [own]. *)
Definition js_in {A : Type} (own : option A) (k : string) : bool :=
  match own with
  | Some _ => true
  | None => JsString.inherited k
  end.

Fixpoint assoc (k : string) (vals : list (string * Z)) : option Z :=
  match vals with
  | (k', v) :: vals' => if String.eqb k k' then Some v else assoc k vals'
  | [] => None
  end.

(** [vals[r]] as the operand of a 32-bit operator: an inherited member is
    not a number and converts to 0. *)
Definition member_int32 (own : option Z) : Z :=
  match own with
  | Some v => v
  | None => 0
  end.

(* ===================================================================== *)
(** ** Argument converters *)
(* ===================================================================== *)

(** A converter is called as [argFunction(text, labels)]; converters
    declared with one parameter ignore [labels]. *)
Definition argFunction : Type := string -> label_table -> result Z.

Definition lo_regs : list (string * Z) :=
  [("r0", 0); ("r1", 1); ("r2", 2); ("r3", 3); ("r4", 4); ("r5", 5); ("r6", 6); ("r7", 7)].

Definition rlistLr_vals : list (string * Z) :=
  [("r0", 1); ("r1", 2); ("r2", 4); ("r3", 8); ("r4", 16); ("r5", 32); ("r6", 64);
   ("r7", 128); ("lr", 256)].

Definition reg4_vals : list (string * Z) :=
  lo_regs ++
  [("r8", 8); ("r9", 9); ("r10", 10); ("r11", 11); ("r12", 12); ("r13", 13);
   ("r14", 14); ("r15", 15); ("lr", 14); ("pc", 15)].

Fixpoint rlistLr_loop (regs : list string) (bits : Z) : result Z :=
  match regs with
  | r :: regs' =>
      let r := JsString.trim r in
      if negb (js_in (assoc r rlistLr_vals) r)
      then inl (Error [Txt "Unknown register name "; Fun_reg])
      else rlistLr_loop regs' (bits .| member_int32 (assoc r rlistLr_vals))
  | [] => inr bits
  end.

Definition rlistLr : argFunction :=
  fun value _ => rlistLr_loop (JsString.split_on "," value) 0.

Definition reg (regOffset : Z) : argFunction :=
  fun r _ =>
    if negb (js_in (assoc r lo_regs) r)
    then inl (Error [Txt "Unknown register name "; Fun_reg])
    else inr (member_int32 (assoc r lo_regs) << regOffset).

Definition reg4 (regOffset : Z) : argFunction :=
  fun r _ =>
    if negb (js_in (assoc r reg4_vals) r)
    then inl (Error [Txt "Unknown register name "; Txt r])
    else inr (member_int32 (assoc r reg4_vals) << regOffset).

Definition regOrImmediate (regOffset immediateBit : Z) : argFunction :=
  fun r _ =>
    let regVal := JsParse.parseInt r 0 in
    if JsNumber.geb regVal (Fin 0) && JsNumber.ltb regVal (Fin 8)
    then inr (((JsNumber.ToInt32 regVal .& 7) << regOffset) .| (1 << immediateBit))
    else if negb (js_in (assoc r lo_regs) r)
    then inl (Error [Txt "Unknown register name, or immediate out of range 0..7 "; Txt r])
    else inr (member_int32 (assoc r lo_regs) << regOffset).

(** Not used by any row of the table; both operands read [parms[0]]. *)
Definition regBaseOffset (baseOffset offsetOffset : Z) : argFunction :=
  fun value labels =>
    let parms := JsString.split_on "," value in
    let parms0 := match parms with p :: _ => p | [] => EmptyString end in
    match reg baseOffset parms0 labels with
    | inl e => inl e
    | inr a =>
        match reg offsetOffset parms0 labels with
        | inl e => inl e
        | inr b => inr (a .| b)
        end
    end.

Definition thumb2ImmediateT3 : argFunction :=
  fun value _ =>
    if negb (bool_decide (JsString.head value = Some "#"%char))
    then inl (Error [Txt "Expecting '#' before number"])
    else
      let v := JsParse.parseInt (JsString.substr value 1 None) 0 in
      if JsNumber.geb v (Fin 0) && JsNumber.ltb v (Fin 65536) then
        let v := JsNumber.ToInt32 v in
        let imm4 := (v >> 12) .& 15 in
        let i := (v >> 11) .& 1 in
        let imm3 := (v >> 8) .& 7 in
        let imm8 := v .& 255 in
        inr ((i << 26) .| (imm4 << 16) .| (imm3 << 12) .| imm8)
      else inl (Error [Txt "Invalid number '"; Txt value; Txt "' - must be between 0 and 65535"]).

(** The value of an operand of [convertInt]: an immediate after [#], or
    [labels[NAME] + INTEGER - labels.PC].  It also returns [value] as the
    source leaves it (cut at the first [+]) for the message. *)
Definition convertInt_value (value : string) (labels : label_table)
    : result (string * number) :=
  if bool_decide (JsString.head value = Some "#"%char)
  then inr (value, JsParse.parseInt (JsString.substr value 1 None) 0)
  else
    let maths := JsString.indexOf value "+" in
    let '(addValue, value) :=
      if 0 <=? maths
      then (JsParse.parseInt (JsString.substr value maths None) 0,
            JsString.substr value 0 (Some maths))
      else (Fin 0, value) in
    if js_in (labels !! value) value then
      (* an inherited member or a missing PC is not a number: the sum is NaN *)
      let member := match labels !! value with Some a => Fin a | None => NaN end in
      let PC := match labels !! "PC" with Some a => Fin a | None => NaN end in
      inr (value, JsNumber.sub (JsNumber.add member addValue) PC)
    else inl (Error [Txt "Unknown label '"; Txt value; Txt "'"]).

Definition convertInt (offset bits shift : Z) (signed : bool) : argFunction :=
  fun value labels =>
    let maxValue := ((1 << bits) - 1) << shift in
    let minValue := 0 in
    let '(minValue, maxValue) :=
      if signed
      then let minValue := - (1 << (bits - 1)) in (minValue, maxValue + minValue)
      else (minValue, maxValue) in
    match convertInt_value value labels with
    | inl e => inl e
    | inr (value, binValue) =>
        if JsNumber.geb binValue (Fin minValue) && JsNumber.leb binValue (Fin maxValue)
           && ((JsNumber.ToInt32 binValue .& ((1 << shift) - 1)) =? 0)
        then inr (((JsNumber.ToInt32 binValue >> shift) .& ((1 << bits) - 1)) << offset)
        else
          let msg := [Txt "Invalid number '"; Txt value; Txt "' ("; Num binValue;
                      Txt ") - must be between 0 and "; Num (Fin maxValue)] in
          let msg := if negb (shift =? 0)
                     then msg ++ [Txt " and a multiple of "; Num (Fin (1 << shift))]
                     else msg in
          inl (Thrown msg)
    end.

Definition uint (offset bits shift : Z) : argFunction := convertInt offset bits shift false.

Definition sint (offset bits shift : Z) : argFunction := convertInt offset bits shift true.

(** special 23-bit address (bottom bit ignored) split into two halves *)
Definition blAddr : argFunction :=
  let normal := sint 0 22 1 in
  fun value labels =>
    match normal value labels with
    | inl e => inl e
    | inr v => inr ((((v >> 11) .& 2047) << 16) .| (v .& 2047))
    end.

(** The two anonymous converters of [.word], by the radix they pass to
    [parseInt]. *)
Definition word_literal (radix : Z) : argFunction :=
  fun v _ =>
    let vi := JsNumber.ToInt32 (JsParse.parseInt v radix) in
    inr ((vi >> 16) .| (vi << 16)).

(* ===================================================================== *)
(** ** The instruction table *)
(* ===================================================================== *)

Record InstructionFormat : Type := {
  base : string;
  regex : RegExp.regexp;
  args : list argFunction;
}.

Module Patterns.
Import RegExp.

(** [/(r[0-7]),(r[0-7]),(#[0-9]+)$/] *)
Definition rd_rs_imm : regexp := seq [lo_reg; lit ","; lo_reg; lit ","; imm; Eol].
(** [/(r[0-7]),(r[0-7])$/] *)
Definition rd_rs : regexp := seq [lo_reg; lit ","; lo_reg; Eol].
(** [/(r[0-7]),(#[0-9]+)$/] *)
Definition rd_imm : regexp := seq [lo_reg; lit ","; imm; Eol].
(** the branch operand: [^], a group of any run of [.], [$] *)
Definition whole : regexp := seq [Bol; anything; Eol].
(** [/(lr|r[0-9]+)$/] *)
Definition bx_reg : regexp :=
  seq [Group (Alt (lit "lr") (Seq (lit "r") (Plus digit))); Eol].
(** [^], [(r[0-7])], a comma, an identifier group, [$] *)
Definition a_rd_label : regexp := seq [Bol; lo_reg; lit ","; label; Eol].
Definition a_rd_label_plus : regexp := seq [Bol; lo_reg; lit ","; label_plus; Eol].
(** [^], an opening brace, a group of any run of [.], a closing brace, [$] *)
Definition braces : regexp := seq [Bol; lit "{"; anything; lit "}"; Eol].
(** [/^(r[0-7]),pc,(#[0-9]+)$/] and its [sp] twin *)
Definition a_rd_pc_imm : regexp := seq [Bol; lo_reg; lit ",pc,"; imm; Eol].
Definition a_rd_sp_imm : regexp := seq [Bol; lo_reg; lit ",sp,"; imm; Eol].
(** [/^sp,(#[0-9]+)$/] *)
Definition a_sp_imm : regexp := seq [Bol; lit "sp,"; imm; Eol].
(** [/^(r[0-7]),(r[0-7]),([^,]+)$/] *)
Definition a_rd_rs_field : regexp := seq [Bol; lo_reg; lit ","; lo_reg; lit ","; field; Eol].
(** [/^(r[0-7]),(r[0-7]),(r[0-7])$/] *)
Definition a_rd_rs_rt : regexp := seq [Bol; lo_reg; lit ","; lo_reg; lit ","; lo_reg; Eol].
(** [/^(r[0-7]),(r[0-7]),(#[0-9]+)$/] *)
Definition a_rd_rs_imm : regexp := seq [Bol; lo_reg; lit ","; lo_reg; lit ","; imm; Eol].
(** [/^([^,]+),([^,]+),([^,]+)$/] *)
Definition a_three_fields : regexp := seq [Bol; field; lit ","; field; lit ","; field; Eol].
(** [/(r[0-7]),\[(r[0-7]),(r[0-7])\]$/] *)
Definition mem_reg : regexp := seq [lo_reg; lit ",["; lo_reg; lit ","; lo_reg; lit "]"; Eol].
(** [/(r[0-7]),\[sp,(#[0-9]+)\]$/] and its [pc] twin *)
Definition mem_sp_imm : regexp := seq [lo_reg; lit ",[sp,"; imm; lit "]"; Eol].
Definition mem_pc_imm : regexp := seq [lo_reg; lit ",[pc,"; imm; lit "]"; Eol].
(** [/(r[0-7]),\[(r[0-7])\]$/] *)
Definition mem_base : regexp := seq [lo_reg; lit ",["; lo_reg; lit "]"; Eol].
(** [/(r[0-7]),\[(r[0-7]),(#[0-9]+)\]$/] *)
Definition mem_imm : regexp := seq [lo_reg; lit ",["; lo_reg; lit ","; imm; lit "]"; Eol].
(** the two label forms of [ldr], not anchored at the start *)
Definition rd_label : regexp := seq [lo_reg; lit ","; label; Eol].
Definition rd_label_plus : regexp := seq [lo_reg; lit ","; label_plus; Eol].
(** [/sp,(r[0-7])$/] *)
Definition sp_rs : regexp := seq [lit "sp,"; lo_reg; Eol].
(** [/0x([0-9A-Fa-f]+)$/] *)
Definition hex_word : regexp := seq [lit "0x"; Group (Plus hexdigit); Eol].
(** [/([0-9]+)$/] *)
Definition dec_word : regexp := seq [Group (Plus digit); Eol].
(** [new RegExp] of the empty source: matches every string *)
Definition empty : regexp := Eps.
(** [/i/] *)
Definition letter_i : regexp := lit "i".
(** [/(#[0-9]+)$/] *)
Definition imm_only : regexp := seq [imm; Eol].

End Patterns.

Definition fmt (b : string) (r : RegExp.regexp) (a : list argFunction) : InstructionFormat :=
  {| base := b; regex := r; args := a |}.

(** Format 4 ALU operation and conditional branch rows *)
Definition alu (b : string) : list InstructionFormat :=
  [fmt b Patterns.rd_rs [reg 0; reg 3]].

Definition branch (b : string) : list InstructionFormat :=
  [fmt b Patterns.whole [sint 0 8 1]].

Definition shift_op (b_imm b_reg : string) : list InstructionFormat :=
  [fmt b_imm Patterns.rd_rs_imm [reg 0; reg 3; uint 6 5 0];
   fmt b_reg Patterns.rd_rs [reg 0; reg 3]].

Definition ops : list (string * list InstructionFormat) :=
  [ ("lsl", shift_op "00000-----___---" "0100000010___---");
    ("lsr", shift_op "00001-----___---" "0100000011___---");
    ("asr", shift_op "00010-----___---" "0100000100___---");
    ("cmp", [fmt "00101---________" Patterns.rd_imm [reg 8; uint 0 8 0];
             fmt "0100001010___---" Patterns.rd_rs [reg 0; reg 3]]);
    ("and", alu "0100000000___---");
    ("eor", alu "0100000001___---");
    ("adc", alu "0100000101___---");
    ("sbc", alu "0100000110___---");
    ("ror", alu "0100000111___---");
    ("tst", alu "0100001000___---");
    ("neg", alu "0100001001___---");
    ("cmn", alu "0100001011___---");
    ("orr", alu "0100001100___---");
    ("mul", alu "0100001101___---");
    ("bic", alu "0100001110___---");
    ("mvn", alu "0100001111___---");
    ("beq", branch "11010000________");
    ("bne", branch "11010001________");
    ("bcs", branch "11010010________");
    ("bcc", branch "11010011________");
    ("bmi", branch "11010100________");
    ("bpl", branch "11010101________");
    ("bvs", branch "11010110________");
    ("bvc", branch "11010111________");
    ("bhi", branch "11011000________");
    ("bls", branch "11011001________");
    ("bge", branch "11011010________");
    ("blt", branch "11011011________");
    ("bgt", branch "11011100________");
    ("ble", branch "11011101________");
    ("b", [fmt "11100___________" Patterns.whole [sint 0 11 1]]);
    ("bl", [fmt "11110___________11111___________" Patterns.whole [blAddr]]);
    ("bx", [fmt "010001110----000" Patterns.bx_reg [reg4 3]]);
    ("adr", [fmt "10100---________" Patterns.a_rd_label [reg 8; uint 0 8 2];
             fmt "10100---________" Patterns.a_rd_label_plus [reg 8; uint 0 8 2]]);
    ("push", [fmt "1011010-________" Patterns.braces [rlistLr]]);
    ("pop", [fmt "1011110-________" Patterns.braces [rlistLr]]);
    ("add", [fmt "00110---________" Patterns.rd_imm [reg 8; uint 0 8 0];
             fmt "10100---________" Patterns.a_rd_pc_imm [reg 8; uint 0 8 2];
             fmt "10101---________" Patterns.a_rd_sp_imm [reg 8; uint 0 8 2];
             fmt "101100000_______" Patterns.a_sp_imm [uint 0 7 2];
             fmt "00011-0___---___" Patterns.a_rd_rs_field [reg 0; reg 3; regOrImmediate 6 10]]);
    ("adds", [fmt "00011-0___---___" Patterns.a_rd_rs_field [reg 0; reg 3; regOrImmediate 6 10]]);
    ("adc.w", [fmt "111010110100----________--------" Patterns.a_rd_rs_rt
                 [reg 16; reg 8; reg 0]]);
    ("add.w", [fmt "11110001--------________--------" Patterns.a_rd_rs_imm
                 [reg 16; reg 8; uint 0 8 0]]);
    ("sub", [fmt "00111---________" Patterns.rd_imm [reg 8; uint 0 8 0];
             fmt "101100001_______" Patterns.a_sp_imm [uint 0 7 2];
             fmt "00011-1___---___" Patterns.a_three_fields [reg 0; reg 3; regOrImmediate 6 10]]);
    ("str", [fmt "0101000---___---" Patterns.mem_reg [reg 0; reg 3; reg 6];
             fmt "10010---________" Patterns.mem_sp_imm [reg 8; uint 0 8 2];
             fmt "0110000000___---" Patterns.mem_base [reg 0; reg 3];
             fmt "0110000---___---" Patterns.mem_imm [reg 0; reg 3; uint 6 5 2]]);
    ("strb", [fmt "0101010---___---" Patterns.mem_reg [reg 0; reg 3; reg 6];
              fmt "0111000---___---" Patterns.mem_imm [reg 0; reg 3; uint 6 5 2]]);
    ("ldr", [fmt "01001---________" Patterns.mem_pc_imm [reg 8; uint 0 8 2];
             fmt "10011---________" Patterns.mem_sp_imm [reg 8; uint 0 8 2];
             fmt "01001---________" Patterns.rd_label [reg 8; uint 0 8 2];
             fmt "01001---________" Patterns.rd_label_plus [reg 8; uint 0 8 2];
             fmt "0101100---___---" Patterns.mem_reg [reg 0; reg 3; reg 6];
             fmt "0110100000___---" Patterns.mem_base [reg 0; reg 3];
             fmt "0110100---___---" Patterns.mem_imm [reg 0; reg 3; uint 6 5 2]]);
    ("ldrb", [fmt "0101110---___---" Patterns.mem_reg [reg 0; reg 3; reg 6];
              fmt "0110100---___---" Patterns.mem_imm [reg 0; reg 3; uint 6 5 2]]);
    ("mov", [fmt "00100---________" Patterns.rd_imm [reg 8; uint 0 8 0];
             fmt "0001110000---___" Patterns.rd_rs [reg 0; reg 3];
             fmt "0100011010---101" Patterns.sp_rs [reg 3]]);
    ("movs", [fmt "00100---________" Patterns.rd_imm [reg 8; uint 0 8 0]]);
    ("movw", [fmt "11110-100100----0___----________" Patterns.rd_imm
                [reg4 8; thumb2ImmediateT3]]);
    (".word", [fmt "--------------------------------" Patterns.hex_word [word_literal 16];
               fmt "--------------------------------" Patterns.dec_word [word_literal 0]]);
    ("nop", [fmt "0100011011000000" Patterns.empty []]);
    ("cpsie", [fmt "1011011001100010" Patterns.letter_i []]);
    ("cpsid", [fmt "1011011001110010" Patterns.letter_i []]);
    ("wfe", [fmt "1011111100100000" Patterns.letter_i []]);
    ("wfi", [fmt "1011111100110000" Patterns.letter_i []]);
    ("bkpt", [fmt "10111110--------" Patterns.imm_only [uint 0 8 0]]) ].

Fixpoint ops_get (opName : string) (table : list (string * list InstructionFormat))
    : option (list InstructionFormat) :=
  match table with
  | (k, variants) :: table' => if String.eqb opName k then Some variants else ops_get opName table'
  | [] => None
  end.

(* ===================================================================== *)
(** ** The bit-template parser *)
(* ===================================================================== *)

Fixpoint getOpCode_base (binary : string) : string :=
  match binary with
  | String b binary' =>
      String (if 0 <=? JsString.indexOf "-_" b then "0"%char else b) (getOpCode_base binary')
  | EmptyString => EmptyString
  end.

Definition getOpCode (binary : string) : number :=
  let opCode := JsParse.parseInt (getOpCode_base binary) 2 in
  if JsNumber.ltb opCode (Fin 0) then JsNumber.add opCode (Fin 2147483648) else opCode.

(* ===================================================================== *)
(** ** The two-pass engine *)
(* ===================================================================== *)

Section Engine.

(** [wordCallback] updates whatever the caller's closure captured. *)
Context {B : Type}.
Variable wordCallback : number -> B -> B.

(** The variables of one [assembleInternal] call: [addr] and [newLabels]
    are its locals, [labels] is the object passed in ([None] is
    [undefined]) and [sink] is the state behind [wordCallback]. *)
Record engine : Type := {
  addr : Z;
  newLabels : label_table;
  labels : option label_table;
  sink : B;
}.

(** A statement either completes or throws; the state reached is kept
    in both cases. *)
Definition step : Type := engine -> result unit * engine.

Definition throw (e : thrown) : step := fun st => (inl e, st).
Definition done_ : step := fun st => (inr tt, st).

(** [for (i = 0; i < op.args.length; i++) opCode |= argFunction(m[i + 1], labels)] *)
Fixpoint parse_args (fs : list argFunction) (i : nat) (m : list string)
    (labels : label_table) (opCode : number) : result number :=
  match fs with
  | argFunction :: fs' =>
      match m !! S i with
      | Some text =>
          match argFunction text labels with
          | inl e => inl e
          | inr bits => parse_args fs' (S i) m labels (Fin (JsNumber.ToInt32 opCode .| bits))
          end
      | None => inl TypeError
      end
  | [] => inr opCode
  end.

Definition emit (op : InstructionFormat) (opCode : number) : step :=
  fun st =>
    if 16 <? JsString.length op.(base) then
      let s1 := wordCallback (Fin (JsNumber.ToInt32 opCode >>> 16)) st.(sink) in
      let s2 := wordCallback (Fin (JsNumber.ToInt32 opCode .& 65535)) s1 in
      (inr tt, {| addr := st.(addr) + 4; newLabels := st.(newLabels);
                  labels := st.(labels); sink := s2 |})
    else
      (inr tt, {| addr := st.(addr) + 2; newLabels := st.(newLabels);
                  labels := st.(labels); sink := wordCallback opCode st.(sink) |}).

(** [for (const op of ops[opName])]: the first variant whose pattern
    matches is assembled and ends the loop; [found] stays false when
    the list runs out. *)
Fixpoint search_ops (variants : list InstructionFormat) (args_ line : string) : step :=
  fun st =>
    match variants with
    | op :: variants' =>
        match RegExp.js_match args_ op.(regex) with
        | Some m =>
            let opCode := getOpCode op.(base) in
            match st.(labels) with
            | Some labels =>
                match parse_args op.(args) 0 m labels opCode with
                | inl e => throw e st
                | inr opCode => emit op opCode st
                end
            | None => emit op opCode st
            end
        | None => search_ops variants' args_ line st
        end
    | [] =>
        throw (Error [Txt "Unknown arg style '"; Txt args_; Txt "' in '"; Txt line; Txt "'"]) st
    end.

(** [ops[opName]] read through an inherited key is a member of
    [Object.prototype], not a list of variants.  The compiled loop reads
    its [length]: a function of one or more parameters yields an
    [undefined] variant whose [regex] cannot be read, anything else
    yields no iteration at all. *)
Definition inherited_length (k : string) : Z :=
  if existsb (String.eqb k) ["__defineGetter__"; "__defineSetter__"] then 2
  else if existsb (String.eqb k) ["toString"; "valueOf"; "toLocaleString"; "__proto__"] then 0
  else 1.

Definition tokenize (line : string) : string * string :=
  let firstArgEnd := JsString.indexOf line "009" in
  let firstArgEnd := if firstArgEnd <? 0 then JsString.indexOf line " " else firstArgEnd in
  let firstArgEnd := if firstArgEnd <? 0 then JsString.length line else firstArgEnd in
  let opName := JsString.substr line 0 (Some firstArgEnd) in
  let args := JsString.trim (JsString.remove_blanks (JsString.substr line firstArgEnd None)) in
  (opName, args).

(** The body of [asmLines.forEach]. *)
Definition assemble_line (line : string) : step :=
  fun st =>
    (* setup labels *)
    let st :=
      match st.(labels) with
      | Some l => {| addr := st.(addr); newLabels := st.(newLabels);
                     labels := Some (<["PC" := st.(addr) + 4]> l); sink := st.(sink) |}
      | None => st
      end in
    (* handle line *)
    let line := JsString.trim line in
    if bool_decide (line = EmptyString) then done_ st
    else if bool_decide (JsString.substr line (-1) None = ":") then
      (* it's a label *)
      let labelName := JsString.substr line 0 (Some (JsString.length line - 1)) in
      if js_in (st.(newLabels) !! labelName) labelName
      then throw (Error [Txt "Label '"; Txt labelName; Txt "' was already defined"]) st
      else done_ {| addr := st.(addr);
                    newLabels := <[labelName := st.(addr)]> st.(newLabels);
                    labels := st.(labels); sink := st.(sink) |}
    else
      (* parse instruction *)
      let '(opName, args) := tokenize line in
      if negb (js_in (ops_get opName ops) opName)
      then throw (Error [Txt "Unknown Op '"; Txt opName; Txt "' in '"; Txt line; Txt "'"]) st
      else
        match ops_get opName ops with
        | Some variants => search_ops variants args line st
        | None =>
            if 0 <? inherited_length opName then throw TypeError st
            else search_ops [] args line st
        end.

Fixpoint forEach (asmLines : list string) : step :=
  fun st =>
    match asmLines with
    | line :: asmLines' =>
        match assemble_line line st with
        | (inr _, st') => forEach asmLines' st'
        | (inl e, st') => (inl e, st')
        end
    | [] => done_ st
    end.

(** Returns [newLabels], or the thrown value, next to the state behind
    the callback as the call leaves it. *)
Definition assembleInternal (asmLines : list string) (labels : option label_table)
    (sink0 : B) : result label_table * B :=
  let st0 := {| addr := 0; newLabels := ∅; labels := labels; sink := sink0 |} in
  match forEach asmLines st0 with
  | (inr _, st) => (inr st.(newLabels), st.(sink))
  | (inl e, st) => (inl e, st.(sink))
  end.

End Engine.

Arguments engine : clear implicits.

(** What the calls write to the console. *)
Inductive console_event : Type :=
| Log (labels : label_table)       (* console.log(labels) *)
| Failed (err : thrown).           (* console.error("Assembler failed: " + err) *)

Definition assemble {B : Type} (asmLines : list string) (wordCallback : number -> B -> B)
    (sink0 : B) : result unit * B * list console_event :=
  match assembleInternal (fun _ (u : unit) => u) asmLines None tt with
  | (inl e, _) => (inl e, sink0, [])
  | (inr labels, _) =>
      match assembleInternal wordCallback asmLines (Some labels) sink0 with
      | (inl e, sink1) => (inl e, sink1, [Log labels])
      | (inr _, sink1) => (inr tt, sink1, [Log labels])
      end
  end.

(** [machineCode.push("0x" + word.toString(16))] *)
Definition push_hex (word : number) (machineCode : list string) : list string :=
  machineCode ++ ["0x" +:+ JsParse.toString16 word].

(** The entry point of [src/assembler.ts]: the array of strings, or
    [None] for [undefined]. *)
Definition assembleBlock (asmLines : list string) : option (list string) * list console_event :=
  match assemble asmLines push_hex [] with
  | (inl err, _, console) => (None, console ++ [Failed err])
  | (inr _, machineCode, console) => (Some machineCode, console)
  end.

(** The compiled [bin/assembler.js]: same engine; [assemble] does not log
    the labels, and [assembleBlock] keeps the words as numbers, pads them
    to an even count and returns them as a [Uint32Array]. *)
Module Bin.

Definition push_word (word : number) (machineCode : list number) : list number :=
  machineCode ++ [word].

Definition assemble {B : Type} (asmLines : list string) (wordCallback : number -> B -> B)
    (sink0 : B) : result unit * B :=
  match assembleInternal (fun _ (u : unit) => u) asmLines None tt with
  | (inl e, _) => (inl e, sink0)
  | (inr labels, _) =>
      match assembleInternal wordCallback asmLines (Some labels) sink0 with
      | (inl e, sink1) => (inl e, sink1)
      | (inr _, sink1) => (inr tt, sink1)
      end
  end.

Definition assembleBlock (asmLines : list string) : option (list Z) * list console_event :=
  match assemble asmLines push_word [] with
  | (inl err, _) => (None, [Failed err])
  | (inr _, machineCode) =>
      let machineCode :=
        if Z.of_nat (length machineCode) mod 2 =? 1 then machineCode ++ [Fin 0]
        else machineCode in
      (Some (map JsNumber.ToUint32 machineCode), [])
  end.

End Bin.

(* ===================================================================== *)
(** ** Worked inputs *)
(* ===================================================================== *)

Definition loop_example : list string := ["loop:"; "sub r0,#1"; "bne loop"].

(** Pass 1: no callback state, [labels] undefined. *)
Definition pass1 (asmLines : list string) : result label_table :=
  fst (assembleInternal (fun _ (u : unit) => u) asmLines None tt).

(** The state of pass 2 of [loop_example] when [forEach] reaches the
    branch. *)
Definition before_bne : engine (list number) :=
  snd (forEach Bin.push_word ["loop:"; "sub r0,#1"]
         {| addr := 0; newLabels := ∅; labels := Some (<["loop" := 0]> ∅); sink := [] |}).

(* ===================================================================== *)
(** ** Definitions used by the statements *)
(* ===================================================================== *)

Section Replay.

(** Feeding a recorded sequence of words to a callback. *)
Context {B : Type}.
Variable wordCallback : number -> B -> B.
Variable sink0 : B.

Definition replay (words : list number) : B :=
  fold_left (fun s w => wordCallback w s) words sink0.

(** The engine state of a run with [wordCallback], read off the state of
    the run that records its words. *)
Definition project (st : engine (list number)) : engine B :=
  {| addr := st.(addr); newLabels := st.(newLabels); labels := st.(labels);
     sink := replay st.(sink) |}.

End Replay.

(** The words pass 2 hands to its callback, and how it ends. *)
Definition pass2 (asmLines : list string) (labels : label_table)
    : result label_table * list number :=
  assembleInternal Bin.push_word asmLines (Some labels) [].

Definition is_blank (c : ascii) : bool :=
  JsString.char_eqb c "009" || JsString.char_eqb c " ".

Fixpoint occurs (c : ascii) (s : string) : bool :=
  match s with
  | String a s' => JsString.char_eqb a c || occurs c s'
  | EmptyString => false
  end.

(** The tokenizer as the specification words it: the mnemonic stops at the
    earliest tab or space, whichever kind it is, and the argument blob is
    what follows with every tab and space removed. *)
Fixpoint spec_mnemonic (line : string) : string :=
  match line with
  | String c line' => if is_blank c then EmptyString else String c (spec_mnemonic line')
  | EmptyString => EmptyString
  end.

Fixpoint spec_remainder (line : string) : string :=
  match line with
  | String c line' => if is_blank c then line else spec_remainder line'
  | EmptyString => EmptyString
  end.

Definition spec_tokenize (line : string) : string * string :=
  (spec_mnemonic line, JsString.remove_blanks (spec_remainder line)).

(** Variant selection as the specification words it: the first variant in
    listed order whose pattern matches the argument blob. *)
Definition pattern_matches (blob : string) (op : InstructionFormat) : bool :=
  match RegExp.js_match blob op.(regex) with
  | Some _ => true
  | None => false
  end.

Definition first_matching_variant (variants : list InstructionFormat) (blob : string)
    : option InstructionFormat :=
  find (pattern_matches blob) variants.

(** Bytes an instruction occupies. *)
Definition size_of (op : InstructionFormat) : Z :=
  if 16 <? JsString.length op.(base) then 4 else 2.

Definition half_word (w : Z) : Prop := 0 <= w <= 65535.

Definition tab : ascii := "009"%char.

(** A space inside the operands, a tab after them. *)
Definition space_then_tab : string := "mov r0," +:+ String tab "#1".

(** A line feed after the separating space. *)
Definition space_then_newline : string := "mov " +:+ String "010"%char "r0,#1".

(** A tab inside the operands of a space-separated line: the earliest
    tab or space is a space and a tab occurs further on. *)
Definition tab_after_space (line : string) : bool :=
  match spec_remainder line with
  | String c rest => JsString.char_eqb c " " && occurs tab rest
  | EmptyString => false
  end.

(** A tab after the mnemonic, spaces inside the operands. *)
Definition tab_separated : string := "add" +:+ String tab "r1, #2".

Definition as_hex (w : number) : string := "0x" +:+ JsParse.toString16 w.

(** The variant a source line selects, read off the line alone: none for
    a blank line, a label definition or an unknown mnemonic. *)
Definition selected_variant (line : string) : option InstructionFormat :=
  let line := JsString.trim line in
  if bool_decide (line = EmptyString) then None
  else if bool_decide (JsString.substr line (-1) None = ":") then None
  else
    let '(opName, blob) := tokenize line in
    match ops_get opName ops with
    | Some variants => first_matching_variant variants blob
    | None => None
    end.

Definition line_size (line : string) : Z :=
  match selected_variant line with
  | Some op => size_of op
  | None => 0
  end.

Definition total_size (asmLines : list string) : Z :=
  fold_right (fun line n => line_size line + n) 0 asmLines.

Definition unknown_arg_style (blob line : string) : thrown :=
  Error [Txt "Unknown arg style '"; Txt blob; Txt "' in '"; Txt line; Txt "'"].

(** Moving the end position of a match result. *)
Definition lift (d : nat) (m : option (nat * list string)) : option (nat * list string) :=
  match m with
  | Some (pos, caps) => Some ((pos + d)%nat, caps)
  | None => None
  end.

Definition bare_digits : list (string * Z) :=
  [("0", 0); ("1", 1); ("2", 2); ("3", 3); ("4", 4); ("5", 5); ("6", 6); ("7", 7)].

Definition not_a_register (r : string) : thrown :=
  Error [Txt "Unknown register name, or immediate out of range 0..7 "; Txt r].

(** [k'] is [k] seen [d] positions further into the input. *)
Definition shifted (d : nat) (k k' : RegExp.cont) : Prop :=
  forall pos rest caps, k' (pos + d)%nat rest caps = lift d (k pos rest caps).

(** A converter whose results fit in [width] bits. *)
Definition fits (width : Z) (f : argFunction) : Prop :=
  forall text labels v, f text labels = inr v -> 0 <= v < 2 ^ width.

Definition is_half_word (w : number) : Prop := exists z, w = Fin z /\ half_word z.

(** A row of the table is either a 32-bit template, or a template whose
    base is a half-word and whose converters all fit in 16 bits. *)
Definition row_ok (op : InstructionFormat) : Prop :=
  (16 <? JsString.length (base op)) = true
  \/ (is_half_word (getOpCode (base op)) /\ Forall (fits 16) (args op)).

(** Reading the 16-bit immediate back from a Thumb-2 T3 pattern: the
    fields imm4 (bits 19..16), i (bit 26), imm3 (bits 14..12) and imm8
    (bits 7..0), most significant first. *)
Definition t3_immediate (pattern : Z) : Z :=
  (pattern / 2 ^ 16) mod 16 * 4096 + (pattern / 2 ^ 26) mod 2 * 2048
  + (pattern / 2 ^ 12) mod 8 * 256 + pattern mod 256.

Definition word_template : string := "--------------------------------".

(** The number whose binary digits are 1 where the template has a
    character that [keep] selects. *)
Fixpoint template_mask (keep : ascii -> bool) (binary : string) : Z :=
  match binary with
  | String b rest =>
      (if keep b then 2 ^ Z.of_nat (String.length rest) else 0) + template_mask keep rest
  | EmptyString => 0
  end.

Definition is_placeholder (b : ascii) : bool := 0 <=? JsString.indexOf "-_" b.

(** The positions of a template that hold a literal 0 or 1. *)
Definition literal_mask (binary : string) : Z :=
  template_mask (fun b => negb (is_placeholder b)) binary.

(** A converter whose results are non-negative and have no bit outside
    [mask]. *)
Definition writes_within (mask : Z) (f : argFunction) : Prop :=
  forall text labels v, f text labels = inr v -> 0 <= v < 2 ^ 31 /\ Z.land v mask = v.

(** A converter whose results, as 32-bit patterns, have no bit in
    [literal]. *)
Definition avoids (literal : Z) (f : argFunction) : Prop :=
  forall text labels v, f text labels = inr v -> Z.land (v mod 2 ^ 32) literal = 0.

Definition row_keeps_literals (op : InstructionFormat) : Prop :=
  exists b,
    getOpCode (base op) = Fin b /\ 0 <= b < 2 ^ 32
    /\ Z.land b (literal_mask (base op)) = b
    /\ Forall (avoids (literal_mask (base op))) (args op).

(** The templates of the immediate-offset rows of [str], [strb], [ldr]
    and [ldrb]: three placeholders stand for the five bits of
    [uint(6, 5, 2)]. *)
Definition short_immediate_templates : list string :=
  ["0110000---___---"; "0111000---___---"; "0110100---___---"].

Fixpoint all_chars (p : ascii -> bool) (s : string) : bool :=
  match s with
  | String c s' => p c && all_chars p s'
  | EmptyString => true
  end.

(** The characters a template is written with. *)
Definition template_char (b : ascii) : bool :=
  JsString.char_eqb b "0" || JsString.char_eqb b "1"
  || JsString.char_eqb b "-" || JsString.char_eqb b "_".

Definition is_one (b : ascii) : bool := JsString.char_eqb b "1".

(** What [rlistLr] checks and accumulates for one name of the list. *)
Definition list_register_known (r : string) : bool :=
  js_in (assoc (JsString.trim r) rlistLr_vals) (JsString.trim r).

Definition list_register_bits (r : string) : Z :=
  member_int32 (assoc (JsString.trim r) rlistLr_vals).

(** The first statement of the body of [forEach]: [labels.PC = addr + 4]
    when there is a label table. *)
Definition set_PC {B : Type} (st : engine B) : engine B :=
  match labels st with
  | Some l => {| addr := addr st; newLabels := newLabels st;
                 labels := Some (<["PC" := addr st + 4]> l); sink := sink st |}
  | None => st
  end.

(** A line that [forEach] takes as a label definition, and the name it
    defines. *)
Definition is_label_line (line : string) : bool :=
  negb (bool_decide (JsString.trim line = EmptyString))
  && bool_decide (JsString.substr (JsString.trim line) (-1) None = ":").

Definition label_name (line : string) : string :=
  JsString.substr (JsString.trim line) 0 (Some (JsString.length (JsString.trim line) - 1)).

Definition not_blank (c : ascii) : bool := negb (is_blank c).

(* ===================================================================== *)
(** * Properties *)
(* ===================================================================== *)

(** ** The primitives on sample inputs *)

Example parseInt_hash : JsParse.parseInt "#2" 0 = NaN.
Proof. reflexivity. Qed.

Example parseInt_hex : JsParse.parseInt "0x1f" 0 = Fin 31.
Proof. reflexivity. Qed.

Example parseInt_trailing : JsParse.parseInt " -12ab" 0 = Fin (-12).
Proof. reflexivity. Qed.

Example toString16_d1fd : JsParse.toString16 (Fin 53757) = "d1fd".
Proof. reflexivity. Qed.

Example reg_r3 : reg 8 "r3" ∅ = inr 768.
Proof. reflexivity. Qed.

Example sint_minus6 : sint 0 8 1 "loop" (<["PC" := 6]> (<["loop" := 0]> ∅)) = inr 253.
Proof. vm_compute. reflexivity. Qed.

Example regOrImmediate_bare : regOrImmediate 6 10 "2" ∅ = inr 1152.
Proof. reflexivity. Qed.

Example getOpCode_bne : getOpCode "11010001________" = Fin 53504.
Proof. reflexivity. Qed.

Example getOpCode_bl : getOpCode "11110___________11111___________" = Fin 4026595328.
Proof. reflexivity. Qed.

Module RegExpExamples.
Import RegExp.

Example match_unanchored :
  js_match "r0,r1,#2" (seq [lo_reg; lit ","; imm; Eol]) = Some ["r1,#2"; "r1"; "#2"].
Proof. reflexivity. Qed.

Example match_backtracks :
  js_match "{r0,lr}" (seq [Bol; lit "{"; anything; lit "}"; Eol])
  = Some ["{r0,lr}"; "r0,lr"].
Proof. reflexivity. Qed.

Example match_alternative :
  js_match "lr" (seq [Group (Alt (lit "lr") (Seq (lit "r") (Plus digit))); Eol])
  = Some ["lr"; "lr"].
Proof. reflexivity. Qed.

Example match_null : js_match EmptyString (lit "i") = None.
Proof. reflexivity. Qed.

End RegExpExamples.

(** ** Further inputs *)

Example mov_immediate : fst (assembleBlock ["mov r0,#42"]) = Some ["0x202a"].
Proof. vm_compute. reflexivity. Qed.

Example mov_immediate_too_large : fst (assembleBlock ["mov r0,#256"]) = None.
Proof. vm_compute. reflexivity. Qed.

Example long_branch :
  fst (assembleBlock ["bl target"; "nop"; "target:"; "bx lr"])
  = Some ["0xf000"; "0xf801"; "0x46c0"; "0x4770"].
Proof. vm_compute. reflexivity. Qed.

Example movw_immediate : fst (assembleBlock ["movw r1,#4660"]) = Some ["0xf241"; "0x2134"].
Proof. vm_compute. reflexivity. Qed.

Example inherited_mnemonic : fst (assembleBlock ["constructor"]) = None.
Proof. vm_compute. reflexivity. Qed.

Example word_rounds_to_double : fst (assembleBlock [".word 18014398509481985"]) = Some ["0x0"; "0x0"].
Proof. vm_compute. reflexivity. Qed.

(** ** The claims settled by evaluation *)

(** C1. [assembleBlock(["nop"])] of [src/assembler.ts] returns the single
    string ["0x46c0"]: one half-word, no padding, an odd length.  The
    compiled [bin/assembler.js] pads the same input to [[0x46C0, 0]]. *)
Theorem C1_nop_is_not_padded :
  fst (assembleBlock ["nop"]) = Some ["0x46c0"]
  /\ fst (Bin.assembleBlock ["nop"]) = Some [18112; 0].
Proof. split; vm_compute; reflexivity. Qed.

(** C2. [sint(0, 8, 1)], the converter of the conditional branches, rejects
    the immediates -130 and -256, even values inside [[-256, 254]], and
    accepts 256 and 382, outside of it, which it encodes as the fields
    0x80 and 0xBF: its lower bound is [-(1 << (bits - 1))] with no scaling
    by [shift], and that bound is then added to the scaled upper bound. *)
Theorem C2_sint_bounds_ignore_shift (labels : label_table) :
  sint 0 8 1 "#-130" labels
  = inl (Thrown [Txt "Invalid number '"; Txt "#-130"; Txt "' ("; Num (Fin (-130));
                 Txt ") - must be between 0 and "; Num (Fin 382);
                 Txt " and a multiple of "; Num (Fin 2)])
  /\ sint 0 8 1 "#-256" labels
     = inl (Thrown [Txt "Invalid number '"; Txt "#-256"; Txt "' ("; Num (Fin (-256));
                    Txt ") - must be between 0 and "; Num (Fin 382);
                    Txt " and a multiple of "; Num (Fin 2)])
  /\ sint 0 8 1 "#-128" labels = inr 192
  /\ sint 0 8 1 "#254" labels = inr 127
  /\ sint 0 8 1 "#256" labels = inr 128
  /\ sint 0 8 1 "#382" labels = inr 191
  /\ fst (assembleBlock ["bne #-130"]) = None
  /\ fst (assembleBlock ["bne #256"]) = Some ["0xd180"].
Proof. repeat split; vm_compute; reflexivity. Qed.

(** C4. The three lines [loop:], [sub r0,#1], [bne loop] assemble to the
    half-words 0x3801 and 0xD1FD: pass 1 binds [loop] to 0; pass 2 reaches
    the branch at address 2 and sets [labels.PC] to 6; the displacement
    0 - 6 goes through [sint(0, 8, 1)] to the field 0xFD, which is OR-ed
    into the base 0xD100. *)
Theorem C4_loop_example :
  pass1 loop_example = inr (<["loop" := 0]> ∅)
  /\ addr before_bne = 2
  /\ labels (snd (assemble_line Bin.push_word "bne loop" before_bne))
     = Some (<["PC" := 6]> (<["loop" := 0]> ∅))
  /\ convertInt_value "loop" (<["PC" := 6]> (<["loop" := 0]> ∅)) = inr ("loop", Fin (-6))
  /\ sint 0 8 1 "loop" (<["PC" := 6]> (<["loop" := 0]> ∅)) = inr 253
  /\ getOpCode "11010001________" = Fin 53504
  /\ Int32.or 53504 253 = 53757
  /\ Bin.assemble loop_example Bin.push_word [] = (inr tt, [Fin 14337; Fin 53757])
  /\ fst (assembleBlock loop_example) = Some ["0x3801"; "0xd1fd"]
  /\ fst (Bin.assembleBlock loop_example) = Some [14337; 53757].
Proof. repeat split; vm_compute; reflexivity. Qed.

(** C5. The rows of [wfe] and [wfi] carry the pattern [/i/] of the [cpsie]
    and [cpsid] rows: the bare mnemonic has an empty argument blob, no
    variant matches and the call fails; with an operand containing [i]
    the templates 0xBF20 and 0xBF30 are emitted.  [nop], the other
    mnemonic without operand, has the empty pattern and assembles. *)
Theorem C5_wfe_wfi_need_an_operand :
  assembleBlock ["wfe"]
  = (None, [Failed (Error [Txt "Unknown arg style '"; Txt EmptyString; Txt "' in '";
                           Txt "wfe"; Txt "'"])])
  /\ assembleBlock ["wfi"]
     = (None, [Failed (Error [Txt "Unknown arg style '"; Txt EmptyString; Txt "' in '";
                              Txt "wfi"; Txt "'"])])
  /\ fst (assembleBlock ["wfe i"]) = Some ["0xbf20"]
  /\ fst (assembleBlock ["wfi i"]) = Some ["0xbf30"]
  /\ fst (assembleBlock ["nop"]) = Some ["0x46c0"].
Proof. repeat split; vm_compute; reflexivity. Qed.

(* ===================================================================== *)
(** ** The callback only observes the words *)
(* ===================================================================== *)

Section ReplayFacts.

Context {B : Type}.
Variable wordCallback : number -> B -> B.
Variable sink0 : B.

Local Abbreviation proj := (project wordCallback sink0).

Lemma replay_push (words : list number) (w : number) :
  replay wordCallback sink0 (Bin.push_word w words)
  = wordCallback w (replay wordCallback sink0 words).
Proof. unfold replay, Bin.push_word. now rewrite fold_left_app. Qed.

Lemma emit_project op opCode st :
  emit wordCallback op opCode (proj st)
  = (fst (emit Bin.push_word op opCode st), proj (snd (emit Bin.push_word op opCode st))).
Proof.
  unfold emit. cbn [project addr newLabels labels sink].
  destruct (16 <? JsString.length (base op)); cbn [fst snd];
    unfold project; cbn [addr newLabels labels sink];
    now rewrite ?replay_push.
Qed.

Lemma search_ops_project variants args_ line st :
  search_ops wordCallback variants args_ line (proj st)
  = (fst (search_ops Bin.push_word variants args_ line st),
     proj (snd (search_ops Bin.push_word variants args_ line st))).
Proof.
  induction variants as [|op variants IH]; cbn [search_ops].
  - reflexivity.
  - destruct (RegExp.js_match args_ (regex op)) as [m|]; [|exact IH].
    cbn [project labels].
    destruct (labels st) as [l|]; [|apply emit_project].
    destruct (parse_args (args op) 0 m l (getOpCode (base op))) as [e|opCode].
    + reflexivity.
    + apply emit_project.
Qed.

Lemma assemble_line_project line st :
  assemble_line wordCallback line (proj st)
  = (fst (assemble_line Bin.push_word line st),
     proj (snd (assemble_line Bin.push_word line st))).
Proof.
  unfold assemble_line. cbn [project labels addr newLabels sink].
  set (st1 := match labels st with
              | Some l => {| addr := addr st; newLabels := newLabels st;
                             labels := Some (<["PC" := addr st + 4]> l); sink := sink st |}
              | None => st
              end).
  assert (E : match labels st with
              | Some l => {| addr := addr st; newLabels := newLabels st;
                             labels := Some (<["PC" := addr st + 4]> l);
                             sink := replay wordCallback sink0 (sink st) |}
              | None => proj st
              end = proj st1).
  { subst st1. destruct (labels st); reflexivity. }
  rewrite E. clear E. generalize st1. clear st st1. intros st.
  destruct (bool_decide (JsString.trim line = EmptyString)); [reflexivity|].
  destruct (bool_decide (JsString.substr (JsString.trim line) (-1) None = ":")).
  - cbn [project newLabels addr labels sink].
    destruct (js_in _ _); reflexivity.
  - destruct (tokenize (JsString.trim line)) as [opName args_].
    destruct (negb (js_in (ops_get opName ops) opName)); [reflexivity|].
    destruct (ops_get opName ops) as [variants|].
    + apply search_ops_project.
    + destruct (0 <? inherited_length opName); [reflexivity|].
      apply search_ops_project.
Qed.

Lemma forEach_project asmLines st :
  forEach wordCallback asmLines (proj st)
  = (fst (forEach Bin.push_word asmLines st),
     proj (snd (forEach Bin.push_word asmLines st))).
Proof.
  revert st. induction asmLines as [|line asmLines IH]; intros st; cbn [forEach].
  - reflexivity.
  - rewrite assemble_line_project.
    destruct (assemble_line Bin.push_word line st) as [[e|u] st']; cbn [fst snd].
    + reflexivity.
    + apply IH.
Qed.

(** A run with any callback ends as the recording run does, its state
    being the recorded words fed to the callback in order. *)
Lemma assembleInternal_replay asmLines labels :
  assembleInternal wordCallback asmLines labels sink0
  = (fst (assembleInternal Bin.push_word asmLines labels []),
     replay wordCallback sink0 (snd (assembleInternal Bin.push_word asmLines labels []))).
Proof.
  unfold assembleInternal.
  change {| addr := 0; newLabels := ∅; labels := labels; sink := sink0 |}
    with (proj {| addr := 0; newLabels := ∅; labels := labels; sink := [] |}).
  rewrite forEach_project.
  destruct (forEach Bin.push_word asmLines _) as [[e|u] st']; reflexivity.
Qed.

End ReplayFacts.

Lemma replay_push_hex (words : list number) :
  replay push_hex [] words = map (fun w => "0x" +:+ JsParse.toString16 w) words.
Proof.
  unfold replay.
  rewrite <- (app_nil_l (map _ words)). generalize (@nil string).
  induction words as [|w words IH]; intros acc; cbn [fold_left map].
  - now rewrite app_nil_r.
  - rewrite IH. unfold push_hex. now rewrite <- app_assoc.
Qed.

Lemma replay_push_word (words : list number) : replay Bin.push_word [] words = words.
Proof.
  unfold replay.
  rewrite <- (app_nil_l words) at 2. generalize (@nil number).
  induction words as [|w words IH]; intros acc; cbn [fold_left].
  - now rewrite app_nil_r.
  - rewrite IH. unfold Bin.push_word. now rewrite <- app_assoc.
Qed.

(** [assemble] in terms of the two passes. *)
Lemma assemble_passes {B : Type} asmLines (wordCallback : number -> B -> B) sink0 :
  assemble asmLines wordCallback sink0
  = match pass1 asmLines with
    | inl e => (inl e, sink0, [])
    | inr labels =>
        match pass2 asmLines labels with
        | (inl e, words) => (inl e, replay wordCallback sink0 words, [Log labels])
        | (inr _, words) => (inr tt, replay wordCallback sink0 words, [Log labels])
        end
    end.
Proof.
  unfold assemble, pass1, pass2.
  destruct (assembleInternal (fun _ (u : unit) => u) asmLines None tt) as [[e|l] u];
    cbn [fst]; [reflexivity|].
  rewrite (assembleInternal_replay wordCallback sink0).
  destruct (assembleInternal Bin.push_word asmLines (Some l) []) as [[e|l'] ws]; reflexivity.
Qed.

Lemma Bin_assemble_passes {B : Type} asmLines (wordCallback : number -> B -> B) sink0 :
  Bin.assemble asmLines wordCallback sink0
  = match pass1 asmLines with
    | inl e => (inl e, sink0)
    | inr labels =>
        match pass2 asmLines labels with
        | (inl e, words) => (inl e, replay wordCallback sink0 words)
        | (inr _, words) => (inr tt, replay wordCallback sink0 words)
        end
    end.
Proof.
  unfold Bin.assemble, pass1, pass2.
  destruct (assembleInternal (fun _ (u : unit) => u) asmLines None tt) as [[e|l] u];
    cbn [fst]; [reflexivity|].
  rewrite (assembleInternal_replay wordCallback sink0).
  destruct (assembleInternal Bin.push_word asmLines (Some l) []) as [[e|l'] ws]; reflexivity.
Qed.

(** The compiled build pads: what it returns has an even length. *)
Lemma Bin_assembleBlock_even asmLines out :
  fst (Bin.assembleBlock asmLines) = Some out -> Z.of_nat (length out) mod 2 = 0.
Proof.
  unfold Bin.assembleBlock.
  destruct (Bin.assemble asmLines Bin.push_word []) as [[e|u] machineCode]; [discriminate|].
  cbn [fst]. intros [= <-]. rewrite length_map.
  destruct (Z.eqb_spec (Z.of_nat (length machineCode) mod 2) 1) as [E|E].
  - rewrite length_app. cbn [length].
    replace (Z.of_nat (length machineCode + 1)) with (Z.of_nat (length machineCode) + 1) by lia.
    rewrite Zplus_mod, E. reflexivity.
  - pose proof (Z.mod_pos_bound (Z.of_nat (length machineCode)) 2 ltac:(lia)). lia.
Qed.

(* ===================================================================== *)
(** ** Failures *)
(* ===================================================================== *)

(** Pass 2 has handed one word to the callback when the second line
    throws; the call still returns [undefined]. *)
Example partial_output_discarded :
  snd (fst (assemble ["nop"; "mov r0,#256"] Bin.push_word [])) = [Fin 18112]
  /\ fst (assembleBlock ["nop"; "mov r0,#256"]) = None.
Proof. split; vm_compute; reflexivity. Qed.

(** The message of [reg] concatenates the function, not the text [r9]. *)
Example reg_message_names_no_text :
  snd (assembleBlock ["sub r9,r1,r2"])
  = [Log ∅; Failed (Error [Txt "Unknown register name "; Fun_reg])].
Proof. vm_compute. reflexivity. Qed.

(** C3, as stated, fails: on the unknown mnemonic [foo] the value returned
    is [undefined], which carries no message; the message goes to the
    console only. *)
Lemma C3_failure_result_is_undefined :
  assembleBlock ["foo"]
  = (None, [Failed (Error [Txt "Unknown Op '"; Txt "foo"; Txt "' in '"; Txt "foo"; Txt "'"])]).
Proof. vm_compute. reflexivity. Qed.

(** C3, amended.  Whatever the input, [assembleBlock] ends in one of two
    ways.  When a pass throws, it returns [undefined] and writes the
    thrown value to the console, whatever words the callback had already
    received.  Otherwise it returns every word pass 2 emitted, in order,
    each rendered as ["0x"] followed by its hexadecimal digits.  The
    compiled build returns [undefined] in the same cases. *)
Theorem C3_failure_returns_undefined (asmLines : list string) :
  match assemble asmLines Bin.push_word [] with
  | (inl err, partial, console) =>
      assembleBlock asmLines = (None, console ++ [Failed err])
      /\ Bin.assembleBlock asmLines = (None, [Failed err])
  | (inr _, words, console) =>
      assembleBlock asmLines = (Some (map as_hex words), console)
      /\ exists padded, Bin.assembleBlock asmLines = (Some padded, [])
  end.
Proof.
  unfold assembleBlock, Bin.assembleBlock.
  rewrite !assemble_passes, Bin_assemble_passes.
  destruct (pass1 asmLines) as [e|l].
  - split; reflexivity.
  - destruct (pass2 asmLines l) as [[e|l'] words]; rewrite ?replay_push_hex, ?replay_push_word.
    + split; reflexivity.
    + split; [reflexivity|]. eexists. reflexivity.
Qed.

(* ===================================================================== *)
(** ** The line tokenizer *)
(* ===================================================================== *)

Lemma string_length_app (s t : string) :
  String.length (s +:+ t) = (String.length s + String.length t)%nat.
Proof. induction s as [|c s IH]; simpl; [reflexivity|now f_equal]. Qed.

Lemma substring_all (s : string) : String.substring 0 (String.length s) s = s.
Proof. induction s as [|c s IH]; simpl; [reflexivity|now f_equal]. Qed.

Lemma substring_app_prefix (pre rest : string) :
  String.substring 0 (String.length pre) (pre +:+ rest) = pre.
Proof.
  induction pre as [|c pre IH]; simpl.
  - destruct rest; reflexivity.
  - now f_equal.
Qed.

Lemma substring_app_suffix (pre rest : string) :
  String.substring (String.length pre) (String.length rest) (pre +:+ rest) = rest.
Proof.
  induction pre as [|c pre IH]; simpl.
  - apply substring_all.
  - exact IH.
Qed.

Lemma substr_prefix (pre rest : string) :
  JsString.substr (pre +:+ rest) 0 (Some (JsString.length pre)) = pre.
Proof.
  unfold JsString.substr, JsString.substr_start, JsString.length.
  rewrite string_length_app.
  replace (0 <? 0) with false by reflexivity.
  rewrite Z.min_l by lia.
  replace (Z.to_nat 0) with 0%nat by reflexivity.
  replace (Z.to_nat _) with (String.length pre) by lia.
  apply substring_app_prefix.
Qed.

Lemma substr_suffix (pre rest : string) :
  JsString.substr (pre +:+ rest) (JsString.length pre) None = rest.
Proof.
  unfold JsString.substr, JsString.substr_start, JsString.length.
  rewrite string_length_app.
  destruct (Z.ltb_spec (Z.of_nat (String.length pre)) 0) as [H|H]; [lia|].
  rewrite Z.min_l by lia.
  replace (Z.to_nat (Z.of_nat (String.length pre))) with (String.length pre) by lia.
  replace (Z.to_nat _) with (String.length rest) by lia.
  apply substring_app_suffix.
Qed.

(** [indexOf] finds the first occurrence, or answers -1. *)
Lemma indexOf_from_spec (c : ascii) (s : string) (i : Z) :
  if occurs c s
  then exists pre post,
         s = pre +:+ String c post /\ occurs c pre = false
         /\ JsString.indexOf_from i s c = i + JsString.length pre
  else JsString.indexOf_from i s c = -1.
Proof.
  revert i. induction s as [|a s IH]; intros i; cbn [occurs JsString.indexOf_from].
  - reflexivity.
  - destruct (JsString.char_eqb a c) eqn:E; cbn [orb].
    + apply Ascii.eqb_eq in E. subst a.
      exists EmptyString, s. repeat split. unfold JsString.length. cbn. lia.
    + specialize (IH (i + 1)). destruct (occurs c s).
      * destruct IH as (pre & post & -> & Hpre & Hidx).
        exists (String a pre), post. repeat split.
        -- cbn. now rewrite E.
        -- rewrite Hidx. unfold JsString.length. cbn [String.length]. lia.
      * exact IH.
Qed.

Lemma indexOf_from_first (c : ascii) (pre rest : string) (i : Z) :
  occurs c pre = false ->
  JsString.indexOf_from i (pre +:+ String c rest) c = i + JsString.length pre.
Proof.
  revert i. induction pre as [|a pre IH]; intros i; cbn [occurs].
  - intros _. change (EmptyString +:+ String c rest) with (String c rest).
    cbn [JsString.indexOf_from]. unfold JsString.char_eqb. rewrite Ascii.eqb_refl.
    unfold JsString.length. cbn. lia.
  - intros H. apply orb_false_iff in H as [Ha Hpre].
    change (String a pre +:+ String c rest) with (String a (pre +:+ String c rest)).
    cbn [JsString.indexOf_from]. rewrite Ha, (IH _ Hpre).
    unfold JsString.length. cbn [String.length]. lia.
Qed.

Lemma occurs_app c (s t : string) : occurs c (s +:+ t) = occurs c s || occurs c t.
Proof.
  induction s as [|a s IH]; [reflexivity|].
  change (String a s +:+ t) with (String a (s +:+ t)). cbn [occurs].
  now rewrite IH, orb_assoc.
Qed.

Lemma tokenize_at (pre rest : string) (firstArgEnd : Z) :
  firstArgEnd = JsString.length pre ->
  (JsString.substr (pre +:+ rest) 0 (Some firstArgEnd),
   JsString.trim (JsString.remove_blanks (JsString.substr (pre +:+ rest) firstArgEnd None)))
  = (pre, JsString.trim (JsString.remove_blanks rest)).
Proof. intros ->. now rewrite substr_prefix, substr_suffix. Qed.

Lemma app_empty_r (s : string) : s +:+ EmptyString = s.
Proof.
  induction s as [|c s IH]; [reflexivity|].
  change (String c (s +:+ EmptyString) = String c s). now rewrite IH.
Qed.

(** The line splits at its earliest tab or space: neither occurs in
    [spec_mnemonic], and [spec_remainder] is empty or starts with one. *)
Lemma spec_split (line : string) :
  line = spec_mnemonic line +:+ spec_remainder line
  /\ occurs tab (spec_mnemonic line) = false
  /\ occurs " " (spec_mnemonic line) = false
  /\ match spec_remainder line with
     | String c _ => is_blank c = true
     | EmptyString => True
     end.
Proof.
  induction line as [|a line (IH & Ht & Hs & Hr)]; [repeat split|].
  cbn [spec_mnemonic spec_remainder].
  destruct (is_blank a) eqn:E.
  - repeat split. exact E.
  - change (String a (spec_mnemonic line) +:+ spec_remainder line)
      with (String a (spec_mnemonic line +:+ spec_remainder line)).
    rewrite <- IH. cbn [occurs]. rewrite Ht, Hs.
    unfold is_blank, tab in *. apply orb_false_iff in E as [-> ->].
    repeat split. exact Hr.
Qed.

(** With a space before a tab the code takes the mnemonic up to the tab.
    No key of [ops] holds a space, so such a line selects no variant. *)
Example tokenize_space_then_tab : tokenize space_then_tab = ("mov r0,", "#1").
Proof. vm_compute. reflexivity. Qed.

(** C6, as stated, fails on a trimmed instruction line with a line feed
    after the separating space: the code trims the blob after removing
    tabs and spaces, so the blob loses the line feed, which is neither a
    tab nor a space. *)
Lemma C6_blob_is_trimmed :
  JsString.trim space_then_newline = space_then_newline
  /\ is_label_line space_then_newline = false
  /\ tokenize space_then_newline = ("mov", "r0,#1")
  /\ spec_tokenize space_then_newline = ("mov", String "010"%char "r0,#1")
  /\ tokenize space_then_newline <> spec_tokenize space_then_newline.
Proof. repeat split; try (vm_compute; reflexivity). vm_compute. discriminate. Qed.

(** C6, amended.  On every line but those where a tab follows a leading
    space separator, the mnemonic is what precedes the earliest tab or
    space, of either kind, and the blob is the remainder with every tab
    and space removed and then trimmed.  A line with neither is a
    mnemonic with an empty blob. *)
Theorem C6_tokenize_first_blank (line : string) :
  tab_after_space line = false ->
  tokenize line
  = (spec_mnemonic line, JsString.trim (JsString.remove_blanks (spec_remainder line)))
  /\ (occurs tab line = false -> occurs " " line = false ->
      tokenize line = (line, EmptyString)).
Proof.
  intros H.
  assert (T : tokenize line
              = (spec_mnemonic line,
                 JsString.trim (JsString.remove_blanks (spec_remainder line)))).
  { destruct (spec_split line) as (S & Ht & Hs & Hr).
    unfold tab_after_space in H.
    set (m := spec_mnemonic line) in *. set (r := spec_remainder line) in *.
    assert (L : (JsString.length m <? 0) = false)
      by (apply Z.ltb_ge; unfold JsString.length; lia).
    rewrite S at 1. unfold tokenize, JsString.indexOf. fold tab.
    destruct r as [|c rest].
    - rewrite app_empty_r.
      pose proof (indexOf_from_spec tab m 0) as It. rewrite Ht in It.
      pose proof (indexOf_from_spec " " m 0) as Is. rewrite Hs in Is.
      rewrite It. cbn [Z.ltb Z.compare]. rewrite Is. cbn [Z.ltb Z.compare].
      pose proof (tokenize_at m EmptyString _ eq_refl) as E.
      rewrite app_empty_r in E. exact E.
    - unfold is_blank in Hr. apply orb_true_iff in Hr as [Hc|Hc];
        apply Ascii.eqb_eq in Hc; subst c.
      + fold tab. rewrite (indexOf_from_first tab m rest 0 Ht), Z.add_0_l.
        rewrite L. cbv iota. rewrite L.
        apply (tokenize_at m (String tab rest) _ eq_refl).
      + cbn [JsString.char_eqb] in H.
        assert (Ho : occurs tab rest = false).
        { unfold JsString.char_eqb in H. rewrite Ascii.eqb_refl in H. exact H. }
        pose proof (indexOf_from_spec tab (m +:+ String " " rest) 0) as I.
        rewrite occurs_app in I. cbn [occurs] in I. rewrite Ht, Ho in I. cbn in I.
        rewrite I. cbn [Z.ltb Z.compare].
        rewrite (indexOf_from_first " " m rest 0 Hs), Z.add_0_l. rewrite L.
        apply (tokenize_at m (String " " rest) _ eq_refl). }
  split; [exact T|].
  intros Ht Hs. unfold tokenize, JsString.indexOf. fold tab.
  pose proof (indexOf_from_spec tab line 0) as It. rewrite Ht in It.
  pose proof (indexOf_from_spec " " line 0) as Is. rewrite Hs in Is.
  rewrite It. cbn [Z.ltb Z.compare]. rewrite Is. cbn [Z.ltb Z.compare].
  pose proof (tokenize_at line EmptyString _ eq_refl) as E.
  rewrite app_empty_r in E. exact E.
Qed.

(** C6 on a tab-separated line with spaces inside its operands. *)
Lemma C6_tab_separated_line :
  tab_after_space tab_separated = false
  /\ tokenize tab_separated = ("add", "r1,#2").
Proof.
  split; [reflexivity|].
  exact (proj1 (C6_tokenize_first_blank tab_separated eq_refl)).
Defined.

(* ===================================================================== *)
(** ** Variant selection *)
(* ===================================================================== *)

Lemma first_matching_variant_first variants blob op :
  first_matching_variant variants blob = Some op ->
  exists earlier later,
    variants = earlier ++ op :: later
    /\ Forall (fun v => RegExp.js_match blob (regex v) = None) earlier
    /\ is_Some (RegExp.js_match blob (regex op)).
Proof.
  unfold first_matching_variant.
  induction variants as [|v variants IH]; cbn [find]; [discriminate|].
  unfold pattern_matches at 1.
  destruct (RegExp.js_match blob (regex v)) as [m|] eqn:E.
  - intros [= ->]. exists [], variants. repeat split; [constructor|]. rewrite E. eauto.
  - intros H. destruct (IH H) as (earlier & later & -> & Hearlier & Hop).
    exists (v :: earlier), later. repeat split; [constructor; assumption|assumption].
Qed.

(** The loop of [assembleInternal] stops at [first_matching_variant],
    with or without a label table. *)
Lemma search_ops_selects {B : Type} (wordCallback : number -> B -> B)
    variants blob line (st : engine B) :
  match first_matching_variant variants blob with
  | None => search_ops wordCallback variants blob line st = throw (unknown_arg_style blob line) st
  | Some op =>
      exists m, RegExp.js_match blob (regex op) = Some m
        /\ search_ops wordCallback variants blob line st
           = match labels st with
             | None => emit wordCallback op (getOpCode (base op)) st
             | Some l =>
                 match parse_args (args op) 0 m l (getOpCode (base op)) with
                 | inl e => throw e st
                 | inr opCode => emit wordCallback op opCode st
                 end
             end
  end.
Proof.
  unfold first_matching_variant.
  induction variants as [|v variants IH]; cbn [find search_ops]; [reflexivity|].
  unfold pattern_matches at 1.
  destruct (RegExp.js_match blob (regex v)) as [m|] eqn:E; [|exact IH].
  exists m. split; [assumption|]. destruct (labels st); reflexivity.
Qed.

Lemma emit_state {B : Type} (wordCallback : number -> B -> B) op opCode (st : engine B) :
  fst (emit wordCallback op opCode st) = inr tt
  /\ addr (snd (emit wordCallback op opCode st)) = addr st + size_of op
  /\ newLabels (snd (emit wordCallback op opCode st)) = newLabels st
  /\ labels (snd (emit wordCallback op opCode st)) = labels st.
Proof.
  unfold emit, size_of. destruct (16 <? JsString.length (base op)); repeat split.
Qed.

Lemma search_ops_success {B : Type} (wordCallback : number -> B -> B)
    variants blob line (st st' : engine B) u :
  search_ops wordCallback variants blob line st = (inr u, st') ->
  exists op, first_matching_variant variants blob = Some op
    /\ addr st' = addr st + size_of op /\ newLabels st' = newLabels st.
Proof.
  pose proof (search_ops_selects wordCallback variants blob line st) as S.
  destruct (first_matching_variant variants blob) as [op|].
  - destruct S as (m & _ & ->). intros H. exists op. split; [reflexivity|].
    destruct (labels st) as [l|].
    + destruct (parse_args (args op) 0 m l (getOpCode (base op))) as [e|opCode];
        [discriminate|].
      destruct (emit_state wordCallback op opCode st) as (_ & A & N & _).
      rewrite H in A, N. now split.
    + destruct (emit_state wordCallback op (getOpCode (base op)) st) as (_ & A & N & _).
      rewrite H in A, N. now split.
  - rewrite S. discriminate.
Qed.

(** A line that completes advances [addr] by the size of the variant it
    selects and leaves [newLabels] as the line alone and [addr] dictate. *)
Lemma assemble_line_success {B : Type} (wordCallback : number -> B -> B)
    line (st st' : engine B) u :
  assemble_line wordCallback line st = (inr u, st') ->
  addr st' = addr st + line_size line
  /\ exists f : Z -> label_table -> label_table,
       newLabels st' = f (addr st) (newLabels st)
       /\ forall B2 (cb2 : number -> B2 -> B2) (st2 st2' : engine B2) u2,
            assemble_line cb2 line st2 = (inr u2, st2') ->
            newLabels st2' = f (addr st2) (newLabels st2).
Proof.
  unfold assemble_line, line_size, selected_variant, done_, throw.
  set (pc := fun (B : Type) (s : engine B) =>
               match labels s with
               | Some l => {| addr := addr s; newLabels := newLabels s;
                              labels := Some (<["PC" := addr s + 4]> l); sink := sink s |}
               | None => s
               end).
  assert (P : forall (B : Type) (s : engine B),
             addr (pc B s) = addr s /\ newLabels (pc B s) = newLabels s).
  { intros ? s. unfold pc. destruct (labels s); split; reflexivity. }
  fold (pc B st).
  destruct (P B st) as [A N]. rewrite <- A, <- N.
  destruct (bool_decide (JsString.trim line = EmptyString)).
  { intros [= <- <-]. split; [lia|].
    exists (fun _ l => l). split; [reflexivity|].
    intros B2 cb2 st2 st2' u2. fold (pc B2 st2). intros [= <- <-]. apply P. }
  destruct (bool_decide (JsString.substr (JsString.trim line) (-1) None = ":")).
  { set (labelName := JsString.substr (JsString.trim line) 0
                        (Some (JsString.length (JsString.trim line) - 1))).
    destruct (js_in _ _); [discriminate|].
    intros [= <- <-]. cbn [addr newLabels]. split; [lia|].
    exists (fun a l => <[labelName := a]> l). split; [reflexivity|].
    intros B2 cb2 st2 st2' u2. fold (pc B2 st2).
    destruct (js_in _ _); [discriminate|].
    intros [= <- <-]. cbn [addr newLabels]. destruct (P B2 st2) as [-> ->]. reflexivity. }
  destruct (tokenize (JsString.trim line)) as [opName blob].
  destruct (negb (js_in (ops_get opName ops) opName)); [discriminate|].
  destruct (ops_get opName ops) as [variants|].
  - intros H. apply search_ops_success in H. destruct H as (op & -> & Ha & Hn).
    split; [exact Ha|].
    exists (fun _ l => l). split; [exact Hn|].
    intros B2 cb2 st2 st2' u2. fold (pc B2 st2). intros H2.
    apply search_ops_success in H2. destruct H2 as (_ & _ & _ & ->). apply P.
  - destruct (0 <? inherited_length opName); discriminate.
Qed.

Lemma forEach_agree {B1 B2 : Type} (cb1 : number -> B1 -> B1) (cb2 : number -> B2 -> B2)
    asmLines (st1 st1' : engine B1) (st2 st2' : engine B2) u1 u2 :
  addr st1 = addr st2 -> newLabels st1 = newLabels st2 ->
  forEach cb1 asmLines st1 = (inr u1, st1') ->
  forEach cb2 asmLines st2 = (inr u2, st2') ->
  addr st1' = addr st1 + total_size asmLines
  /\ addr st1' = addr st2' /\ newLabels st1' = newLabels st2'.
Proof.
  revert st1 st2. induction asmLines as [|line asmLines IH]; intros st1 st2 A N;
    cbn [forEach total_size fold_right].
  - unfold done_. intros [= <- <-] [= <- <-]. split; [lia|split; assumption].
  - destruct (assemble_line cb1 line st1) as [[e|v1] s1] eqn:E1; [discriminate|].
    destruct (assemble_line cb2 line st2) as [[e|v2] s2] eqn:E2; [discriminate|].
    intros H1 H2.
    destruct (assemble_line_success cb1 line st1 s1 v1 E1) as (A1 & f & N1 & F).
    destruct (assemble_line_success cb2 line st2 s2 v2 E2) as (A2 & _).
    specialize (F _ cb2 st2 s2 v2 E2).
    assert (A' : addr s1 = addr s2) by lia.
    assert (N' : newLabels s1 = newLabels s2) by (rewrite N1, F, A, N; reflexivity).
    destruct (IH s1 s2 A' N' H1 H2) as (T & Ha & Hn).
    fold (total_size asmLines). split; [lia|split; assumption].
Qed.

(** The recording callback holds one word for every two bytes of [addr]. *)
Lemma forEach_words asmLines (st : engine (list number)) :
  2 * Z.of_nat (length (sink (snd (forEach Bin.push_word asmLines st))))
    - addr (snd (forEach Bin.push_word asmLines st))
  = 2 * Z.of_nat (length (sink st)) - addr st.
Proof.
  assert (E : forall op opCode (s : engine (list number)),
             2 * Z.of_nat (length (sink (snd (emit Bin.push_word op opCode s))))
               - addr (snd (emit Bin.push_word op opCode s))
             = 2 * Z.of_nat (length (sink s)) - addr s).
  { intros op opCode s. unfold emit, Bin.push_word.
    destruct (16 <? JsString.length (base op)); cbn [snd sink addr];
      rewrite ?length_app; cbn [length]; lia. }
  assert (S : forall variants blob line (s : engine (list number)),
             2 * Z.of_nat (length (sink (snd (search_ops Bin.push_word variants blob line s))))
               - addr (snd (search_ops Bin.push_word variants blob line s))
             = 2 * Z.of_nat (length (sink s)) - addr s).
  { intros variants blob line s.
    induction variants as [|v variants IH]; cbn [search_ops]; [reflexivity|].
    destruct (RegExp.js_match blob (regex v)); [|exact IH].
    destruct (labels s); [|apply E].
    destruct (parse_args _ _ _ _ _); [reflexivity|apply E]. }
  revert st. induction asmLines as [|line asmLines IH]; intros st; cbn [forEach];
    [reflexivity|].
  assert (L : 2 * Z.of_nat (length (sink (snd (assemble_line Bin.push_word line st))))
                - addr (snd (assemble_line Bin.push_word line st))
              = 2 * Z.of_nat (length (sink st)) - addr st).
  { unfold assemble_line.
    set (st1 := match labels st with Some _ => _ | None => _ end).
    assert (P : sink st1 = sink st /\ addr st1 = addr st)
      by (subst st1; destruct (labels st); split; reflexivity).
    destruct P as [<- <-]. generalize st1. intros s.
    destruct (bool_decide _); [reflexivity|].
    destruct (bool_decide _).
    { destruct (js_in _ _); reflexivity. }
    destruct (tokenize _) as [opName blob].
    destruct (negb _); [reflexivity|].
    destruct (ops_get opName ops); [apply S|].
    destruct (0 <? inherited_length opName); [reflexivity|apply S]. }
  destruct (assemble_line Bin.push_word line st) as [[e|u] s1]; cbn [snd] in *.
  - exact L.
  - rewrite IH. exact L.
Qed.

(** C7. Variant selection is the same in both passes.  The loop stops at
    the first variant, in listed order, whose pattern matches the
    argument blob; that choice reads the variants and the blob only, so a
    run without label table sizes the very variant a run with one
    encodes.  A line that completes advances the address by the size of
    the variant the line selects, in either pass.  When both passes
    complete, pass 2 rebuilds the label addresses of pass 1 and emits one
    half-word for every two bytes of the sizes pass 1 counted. *)
Theorem C7_same_variant_in_both_passes :
  (forall (B : Type) (wordCallback : number -> B -> B) variants blob line (st : engine B),
      match first_matching_variant variants blob with
      | None =>
          search_ops wordCallback variants blob line st
          = throw (unknown_arg_style blob line) st
      | Some op =>
          exists m earlier later,
            variants = earlier ++ op :: later
            /\ Forall (fun v => RegExp.js_match blob (regex v) = None) earlier
            /\ RegExp.js_match blob (regex op) = Some m
            /\ search_ops wordCallback variants blob line st
               = match labels st with
                 | None => emit wordCallback op (getOpCode (base op)) st
                 | Some l =>
                     match parse_args (args op) 0 m l (getOpCode (base op)) with
                     | inl e => throw e st
                     | inr opCode => emit wordCallback op opCode st
                     end
                 end
      end)
  /\ (forall (B : Type) (wordCallback : number -> B -> B) line (st st' : engine B) u,
        assemble_line wordCallback line st = (inr u, st') ->
        addr st' = addr st + line_size line)
  /\ (forall asmLines labels labels2 words,
        pass1 asmLines = inr labels ->
        pass2 asmLines labels = (inr labels2, words) ->
        labels2 = labels /\ 2 * Z.of_nat (length words) = total_size asmLines).
Proof.
  split; [|split].
  - intros B cb variants blob line st.
    pose proof (search_ops_selects cb variants blob line st) as S.
    destruct (first_matching_variant variants blob) as [op|] eqn:F; [|exact S].
    destruct S as (m & Hm & Hs).
    destruct (first_matching_variant_first _ _ _ F) as (earlier & later & Hv & He & _).
    exists m, earlier, later. repeat split; assumption.
  - intros B cb line st st' u H.
    exact (proj1 (assemble_line_success cb line st st' u H)).
  - intros asmLines l l2 words. unfold pass1, pass2, assembleInternal.
    set (i1 := {| addr := 0; newLabels := ∅; labels := None; sink := tt |}).
    set (i2 := {| addr := 0; newLabels := ∅; labels := Some l; sink := [] |}).
    pose proof (forEach_words asmLines i2) as W.
    destruct (forEach (fun _ (u : unit) => u) asmLines i1) as [[e|u1] s1] eqn:E1;
      cbn [fst]; [discriminate|].
    destruct (forEach Bin.push_word asmLines i2) as [[e|u2] s2] eqn:E2; [discriminate|].
    intros [= <-] [= <- <-].
    destruct (forEach_agree _ _ asmLines i1 s1 i2 s2 u1 u2 eq_refl eq_refl E1 E2)
      as (T & A & N).
    subst i1 i2. cbn [snd addr sink length] in W, T.
    split; [symmetry; exact N|lia].
Qed.

(** C7 on the three lines of the loop: both passes complete, pass 2
    rebuilds [loop = 0] and emits two half-words for four bytes. *)
Lemma C7_loop_example_passes_agree :
  pass1 loop_example = inr (<["loop" := 0]> ∅)
  /\ pass2 loop_example (<["loop" := 0]> ∅)
     = (inr (<["loop" := 0]> ∅), [Fin 14337; Fin 53757])
  /\ 2 * Z.of_nat (length [Fin 14337; Fin 53757]) = total_size loop_example.
Proof.
  assert (H1 : pass1 loop_example = inr (<["loop" := 0]> ∅)) by (vm_compute; reflexivity).
  assert (H2 : pass2 loop_example (<["loop" := 0]> ∅)
               = (inr (<["loop" := 0]> ∅), [Fin 14337; Fin 53757]))
    by (vm_compute; reflexivity).
  split; [exact H1|split; [exact H2|]].
  exact (proj2 (proj2 (proj2 C7_same_variant_in_both_passes) _ _ _ _ H1 H2)).
Defined.

(* ===================================================================== *)
(** ** Unanchored patterns *)
(* ===================================================================== *)

Section Shift.

Import RegExp.

Variable d : nat.

Local Abbreviation shifted := (shifted d).

Lemma star_shift a k k' :
  shifted k k' -> shifted (star a k) (star a k').
Proof.
  intros H pos rest. revert pos.
  induction rest as [|c rest IH]; intros pos caps; cbn [star]; [apply H|].
  destruct (atom_matches a c); [|apply H].
  change (S (pos + d)) with (S pos + d)%nat. rewrite IH.
  destruct (star a k (S pos) rest caps) as [[p c']|]; [reflexivity|apply H].
Qed.

Lemma one_shift a k k' :
  shifted k k' -> shifted (one a k) (one a k').
Proof.
  intros H pos rest caps. unfold one. destruct rest as [|c rest]; [reflexivity|].
  destruct (atom_matches a c); [|reflexivity].
  change (S (pos + d)) with (S pos + d)%nat. apply H.
Qed.

Lemma run_shift r :
  anchored r = false -> forall k k', shifted k k' -> shifted (run r k) (run r k').
Proof.
  induction r as [|a|a|a|r1 IH1 r2 IH2|r1 IH1 r2 IH2|r IH| |]; cbn [anchored];
    intros A k k' H.
  - exact H.
  - apply one_shift, H.
  - apply star_shift, H.
  - apply one_shift, star_shift, H.
  - apply orb_false_iff in A as [A1 A2].
    intros pos rest caps. cbn [run]. apply IH1; [assumption|]. apply IH2; assumption.
  - apply orb_false_iff in A as [A1 A2].
    intros pos rest caps. cbn [run]. rewrite (IH1 A1 k k' H).
    destruct (run r1 k pos rest caps) as [[p c]|]; [reflexivity|].
    apply IH2; assumption.
  - intros pos rest caps. cbn [run]. apply (IH A); clear caps.
    intros pos' rest' caps'.
    replace (pos' + d - (pos + d))%nat with (pos' - pos)%nat by lia. apply H.
  - discriminate.
  - intros pos rest caps. cbn [run]. destruct rest; [apply H|reflexivity].
Qed.

Lemma match_at_shift r rest :
  anchored r = false -> match_at r d rest = match_at r 0 rest.
Proof.
  intros A. unfold match_at.
  assert (H : shifted accept accept) by (intros pos s caps; reflexivity).
  pose proof (run_shift r A accept accept H 0%nat rest []) as E.
  cbn [Nat.add] in E. rewrite E.
  destruct (run r accept 0%nat rest []) as [[p c]|]; cbn [lift]; [|reflexivity].
  now replace (p + d - d)%nat with (p - 0)%nat by lia.
Qed.

End Shift.

Lemma search_suffix r prefix suffix pos :
  RegExp.anchored r = false ->
  is_Some (RegExp.match_at r 0 suffix) ->
  is_Some (RegExp.search r pos (prefix +:+ suffix)).
Proof.
  intros A [m Hm]. revert pos.
  induction prefix as [|c prefix IH]; intros pos.
  - change (EmptyString +:+ suffix) with suffix.
    destruct suffix as [|c suffix]; cbn [RegExp.search];
      rewrite (match_at_shift pos r _ A), Hm; eauto.
  - change (String c prefix +:+ suffix) with (String c (prefix +:+ suffix)).
    cbn [RegExp.search].
    destruct (RegExp.match_at r pos (String c (prefix +:+ suffix))); [eauto|apply IH].
Qed.



(* ===================================================================== *)
(** ** [regOrImmediate] *)
(* ===================================================================== *)

(** C9. [regOrImmediate] takes a bare digit 0..7 as an immediate and sets
    the immediate bit, takes [r0] .. [r7] as a register, and rejects every
    text that starts with [#]: [parseInt] yields NaN and the text is no
    register name.  [adds r0,r1,2] assembles to 0x1C88, bit 10 set;
    [adds r0,r1,#2] fails with the unknown-register error. *)
Theorem C9_regOrImmediate_rejects_hash (regOffset immediateBit : Z) (labels : label_table) :
  Forall (fun '(text, n) =>
            regOrImmediate regOffset immediateBit text labels
            = inr (((n .& 7) << regOffset) .| (1 << immediateBit))) bare_digits
  /\ Forall (fun '(text, n) =>
               regOrImmediate regOffset immediateBit text labels = inr (n << regOffset)) lo_regs
  /\ (forall s, regOrImmediate regOffset immediateBit (String "#" s) labels
                = inl (not_a_register (String "#" s)))
  /\ assembleBlock ["adds r0,r1,2"] = (Some ["0x1c88"], [Log ∅])
  /\ Z.testbit 7304 10 = true
  /\ assembleBlock ["adds r0,r1,#2"] = (None, [Log ∅; Failed (not_a_register "#2")]).
Proof.
  split; [|split; [|split]].
  - unfold bare_digits. repeat constructor.
  - unfold lo_regs. repeat constructor.
  - intros s. reflexivity.
  - repeat split; vm_compute; reflexivity.
Qed.

(* ===================================================================== *)
(** ** Bounds of the 32-bit operators *)
(* ===================================================================== *)

Lemma wrap_small z : - 2 ^ 31 <= z < 2 ^ 31 -> Int32.wrap z = z.
Proof.
  intros H. unfold Int32.wrap, JsNumber.wrap32.
  rewrite Z.mod_small; lia.
Qed.

Lemma pow2_le a b : 0 <= a <= b -> 2 ^ a <= 2 ^ b.
Proof. intros H. apply Z.pow_le_mono_r; lia. Qed.

Lemma pow2_pos a : 0 <= a -> 0 < 2 ^ a.
Proof. intros H. apply Z.pow_pos_nonneg; lia. Qed.

Lemma count_small n : 0 <= n <= 31 -> Z.land n 31 = n.
Proof.
  intros H. change 31 with (Z.ones 5). rewrite Z.land_ones by lia.
  apply Z.mod_small. change (2 ^ 5) with 32. lia.
Qed.

Lemma shl_bound a n k :
  0 <= a < 2 ^ k -> 0 <= n -> 0 <= k -> k + n <= 31 -> 0 <= a << n < 2 ^ (k + n).
Proof.
  intros Ha Hn Hk Hkn. unfold Int32.shl.
  pose proof (pow2_le k 31 ltac:(lia)) as P1.
  pose proof (pow2_le (k + n) 31 ltac:(lia)) as P2.
  pose proof (pow2_pos n Hn) as P3.
  rewrite (wrap_small a) by lia.
  rewrite count_small by lia.
  rewrite Z.shiftl_mul_pow2 by lia.
  assert (B : 0 <= a * 2 ^ n < 2 ^ (k + n)).
  { rewrite Z.pow_add_r by lia. nia. }
  rewrite wrap_small; lia.
Qed.

Lemma one_shl n : 0 <= n <= 30 -> 1 << n = 2 ^ n.
Proof.
  intros H. unfold Int32.shl.
  pose proof (pow2_le n 30 ltac:(lia)) as P. change (2 ^ 30) with 1073741824 in P.
  pose proof (pow2_pos n ltac:(lia)) as P'.
  rewrite (wrap_small 1) by (change (2 ^ 31) with 2147483648; lia).
  rewrite count_small by lia.
  rewrite Z.shiftl_mul_pow2 by lia.
  rewrite wrap_small; change (2 ^ 31) with 2147483648; lia.
Qed.

Lemma and_ones a n : 0 <= n <= 30 -> 0 <= a .& (2 ^ n - 1) < 2 ^ n.
Proof.
  intros H. unfold Int32.and.
  pose proof (pow2_le n 30 ltac:(lia)) as P. change (2 ^ 30) with 1073741824 in P.
  pose proof (pow2_pos n ltac:(lia)) as P'.
  rewrite (wrap_small (2 ^ n - 1)) by (change (2 ^ 31) with 2147483648; lia).
  replace (2 ^ n - 1) with (Z.ones n) by (rewrite Z.ones_equiv; lia).
  rewrite Z.land_ones by lia.
  apply Z.mod_pos_bound. lia.
Qed.

Lemma lor_bound a b k : 0 <= k -> 0 <= a < 2 ^ k -> 0 <= b < 2 ^ k -> 0 <= Z.lor a b < 2 ^ k.
Proof.
  intros Hk Ha Hb.
  rewrite <- (Z.mod_small a (2 ^ k)), <- (Z.mod_small b (2 ^ k)) by lia.
  rewrite <- !Z.land_ones by lia.
  rewrite <- Z.land_lor_distr_l.
  rewrite Z.land_ones by lia.
  apply Z.mod_pos_bound. apply pow2_pos. lia.
Qed.

Lemma or_bound a b k :
  0 <= k <= 31 -> 0 <= a < 2 ^ k -> 0 <= b < 2 ^ k -> 0 <= a .| b < 2 ^ k.
Proof.
  intros Hk Ha Hb. unfold Int32.or.
  pose proof (pow2_le k 31 ltac:(lia)) as P.
  rewrite !wrap_small by lia.
  apply lor_bound; lia.
Qed.

Lemma widen v w w' : 0 <= v < 2 ^ w -> 0 <= w <= w' -> 0 <= v < 2 ^ w'.
Proof. intros H Hw. pose proof (pow2_le w w' Hw). lia. Qed.

(** The high and the low half of a 32-bit pattern. *)
Lemma ushr16_high (x : number) :
  JsNumber.ToInt32 x >>> 16 = JsNumber.ToUint32 x / 2 ^ 16.
Proof.
  unfold Int32.ushr. change (Z.land 16 31) with 16.
  rewrite Z.shiftr_div_pow2 by lia. f_equal.
  destruct x as [| |z]; try reflexivity.
  unfold JsNumber.ToInt32, JsNumber.ToUint32, JsNumber.wrap32.
  rewrite Zminus_mod_idemp_l. f_equal. lia.
Qed.

Lemma and16_low (x : number) :
  JsNumber.ToInt32 x .& 65535 = JsNumber.ToUint32 x mod 2 ^ 16.
Proof.
  unfold Int32.and.
  rewrite (wrap_small 65535) by (change (2 ^ 31) with 2147483648; lia).
  change 65535 with (Z.ones 16). rewrite Z.land_ones by lia.
  assert (D : (2 ^ 16 | 2 ^ 32)) by (exists (2 ^ 16); reflexivity).
  assert (W : forall z, Int32.wrap z mod 2 ^ 16 = z mod 2 ^ 16).
  { intros z. unfold Int32.wrap, JsNumber.wrap32.
    rewrite Zminus_mod, (Z.mod_mod_divide _ _ _ D), <- Zminus_mod. f_equal. lia. }
  rewrite W.
  destruct x as [| |z]; try reflexivity.
  unfold JsNumber.ToInt32, JsNumber.ToUint32. fold (Int32.wrap z). rewrite W.
  symmetry. apply Z.mod_mod_divide, D.
Qed.

Lemma halves_in_range (x : number) :
  half_word (JsNumber.ToInt32 x >>> 16) /\ half_word (JsNumber.ToInt32 x .& 65535)
  /\ (JsNumber.ToInt32 x >>> 16) * 65536 + (JsNumber.ToInt32 x .& 65535)
     = JsNumber.ToUint32 x.
Proof.
  rewrite ushr16_high, and16_low. unfold half_word.
  assert (U : 0 <= JsNumber.ToUint32 x < 2 ^ 32).
  { destruct x as [| |z]; cbn [JsNumber.ToUint32]; try lia. apply Z.mod_pos_bound. lia. }
  change (2 ^ 16) with 65536 in *. change (2 ^ 32) with 4294967296 in *.
  pose proof (Z.div_mod (JsNumber.ToUint32 x) 65536 ltac:(lia)).
  pose proof (Z.mod_pos_bound (JsNumber.ToUint32 x) 65536 ltac:(lia)).
  assert (0 <= JsNumber.ToUint32 x / 65536 < 65536).
  { split; [apply Z.div_pos; lia|apply Z.div_lt_upper_bound; lia]. }
  lia.
Qed.

(* ===================================================================== *)
(** ** Widths of the converters *)
(* ===================================================================== *)

Lemma fits_widen w w' f : fits w f -> 0 <= w <= w' -> fits w' f.
Proof. intros F H text l v E. eapply widen; [exact (F text l v E)|exact H]. Qed.

Ltac case_keys :=
  repeat match goal with
         | |- context [String.eqb ?a ?b] => destruct (String.eqb a b)
         end.

Lemma lo_regs_bound r : 0 <= member_int32 (assoc r lo_regs) < 2 ^ 3.
Proof.
  unfold lo_regs. cbn [assoc]. case_keys; cbn [member_int32];
    change (2 ^ 3) with 8; lia.
Qed.

Lemma reg4_vals_bound r : 0 <= member_int32 (assoc r reg4_vals) < 2 ^ 4.
Proof.
  unfold reg4_vals, lo_regs. cbn [assoc app]. case_keys; cbn [member_int32];
    change (2 ^ 4) with 16; lia.
Qed.

Lemma rlistLr_vals_bound r : 0 <= member_int32 (assoc r rlistLr_vals) < 2 ^ 9.
Proof.
  unfold rlistLr_vals. cbn [assoc]. case_keys; cbn [member_int32];
    change (2 ^ 9) with 512; lia.
Qed.

Lemma reg_fits regOffset : 0 <= regOffset <= 28 -> fits (3 + regOffset) (reg regOffset).
Proof.
  intros H text l v. unfold reg.
  destruct (negb _); [discriminate|]. intros [= <-].
  apply shl_bound; try lia. apply lo_regs_bound.
Qed.

Lemma reg4_fits regOffset : 0 <= regOffset <= 27 -> fits (4 + regOffset) (reg4 regOffset).
Proof.
  intros H text l v. unfold reg4.
  destruct (negb _); [discriminate|]. intros [= <-].
  apply shl_bound; try lia. apply reg4_vals_bound.
Qed.

Lemma regOrImmediate_fits regOffset immediateBit w :
  0 <= regOffset -> 3 + regOffset <= w -> 0 <= immediateBit < w -> w <= 31 ->
  fits w (regOrImmediate regOffset immediateBit).
Proof.
  intros Ho Hw Hb H31 text l v. unfold regOrImmediate.
  destruct (_ && _).
  - intros [= <-]. apply or_bound; [lia| |].
    + apply (widen _ (3 + regOffset)); [|lia].
      apply shl_bound; try lia. change 7 with (2 ^ 3 - 1). apply and_ones. lia.
    + rewrite one_shl by lia. split; [apply Z.lt_le_incl, pow2_pos; lia|].
      apply Z.pow_lt_mono_r; lia.
  - destruct (negb _); [discriminate|]. intros [= <-].
    apply (widen _ (3 + regOffset)); [|lia].
    apply shl_bound; try lia. apply lo_regs_bound.
Qed.

Lemma rlistLr_loop_fits regs bits v :
  0 <= bits < 2 ^ 9 -> rlistLr_loop regs bits = inr v -> 0 <= v < 2 ^ 9.
Proof.
  revert bits. induction regs as [|r regs IH]; intros bits Hb; cbn [rlistLr_loop].
  - now intros [= <-].
  - destruct (negb _); [discriminate|]. apply IH.
    apply or_bound; [lia|assumption|apply rlistLr_vals_bound].
Qed.

Lemma rlistLr_fits : fits 9 rlistLr.
Proof.
  intros text l v. unfold rlistLr. apply rlistLr_loop_fits.
  change (2 ^ 9) with 512. lia.
Qed.

Lemma convertInt_fits offset bits shift signed :
  0 <= offset -> 0 <= bits <= 30 -> bits + offset <= 31 ->
  fits (bits + offset) (convertInt offset bits shift signed).
Proof.
  intros Ho Hb H31 text l v. unfold convertInt.
  destruct signed;
    (destruct (convertInt_value text l) as [e|[value binValue]]; [discriminate|];
     destruct (_ && _); [|discriminate]; intros [= <-];
     apply shl_bound; try lia;
     rewrite one_shl by lia; apply and_ones; lia).
Qed.

(** What [parse_args] returns when every converter fits in a half-word
    and the base is one. *)
Lemma parse_args_half_word fs i m l opCode opCode' :
  Forall (fits 16) fs -> is_half_word opCode ->
  parse_args fs i m l opCode = inr opCode' -> is_half_word opCode'.
Proof.
  intros F. revert i opCode.
  induction F as [|f fs Ff F IH]; intros i opCode H; cbn [parse_args].
  - now intros [= <-].
  - destruct (m !! S i) as [text|]; [|discriminate].
    destruct (f text l) as [e|bits] eqn:E; [discriminate|].
    apply IH. destruct H as (z & -> & Hz). eexists. split; [reflexivity|].
    cbn [JsNumber.ToInt32]. fold (Int32.wrap z).
    unfold half_word in *.
    rewrite (wrap_small z) by (change (2 ^ 31) with 2147483648; lia).
    pose proof (or_bound z bits 16 ltac:(lia)) as O.
    change (2 ^ 16) with 65536 in O.
    pose proof (Ff text l bits E) as Hbits. change (2 ^ 16) with 65536 in Hbits.
    specialize (O ltac:(lia) Hbits). lia.
Qed.

Ltac fits16 :=
  lazymatch goal with
  | |- fits 16 (reg ?o) => apply (fits_widen (3 + o)); [apply reg_fits; lia|lia]
  | |- fits 16 (reg4 ?o) => apply (fits_widen (4 + o)); [apply reg4_fits; lia|lia]
  | |- fits 16 (uint ?o ?b ?s) => apply (fits_widen (b + o)); [apply convertInt_fits; lia|lia]
  | |- fits 16 (sint ?o ?b ?s) => apply (fits_widen (b + o)); [apply convertInt_fits; lia|lia]
  | |- fits 16 (regOrImmediate ?o ?b) => apply regOrImmediate_fits; lia
  | |- fits 16 rlistLr => apply (fits_widen 9); [apply rlistLr_fits|lia]
  end.

Ltac row :=
  first
    [ left; reflexivity
    | right; split;
      [ eexists; split; [vm_compute; reflexivity|unfold half_word; lia]
      | repeat (constructor; [fits16|]); constructor ] ].

(** Every row of the table is well sized. *)
Lemma ops_rows_ok : Forall (fun entry => Forall row_ok (snd entry)) ops.
Proof.
  unfold ops, shift_op, alu, branch, fmt.
  repeat (constructor; [cbn [snd]; repeat (constructor; [row|]); constructor|]).
  constructor.
Qed.

Lemma ops_get_rows_ok opName (table : list (string * list InstructionFormat)) variants :
  Forall (fun entry => Forall row_ok (snd entry)) table ->
  ops_get opName table = Some variants -> Forall row_ok variants.
Proof.
  induction 1 as [|[k vs] table Hk Ht IH]; cbn [ops_get]; [discriminate|].
  destruct (String.eqb opName k); [|exact IH]. now intros [= <-].
Qed.

(* ===================================================================== *)
(** ** Every emitted word is a half-word *)
(* ===================================================================== *)

Lemma emit_half_words op opCode (st : engine (list number)) :
  ((16 <? JsString.length (base op)) = false -> is_half_word opCode) ->
  Forall is_half_word (sink st) ->
  Forall is_half_word (sink (snd (emit Bin.push_word op opCode st))).
Proof.
  intros H F. unfold emit, Bin.push_word.
  destruct (16 <? JsString.length (base op)); cbn [snd sink].
  - destruct (halves_in_range opCode) as (Hh & Hl & _).
    rewrite !Forall_app. repeat split; [assumption| |];
      repeat constructor; eexists; (split; [reflexivity|assumption]).
  - rewrite Forall_app. split; [assumption|]. repeat constructor. now apply H.
Qed.

Lemma search_ops_half_words variants blob line (st : engine (list number)) :
  Forall row_ok variants -> Forall is_half_word (sink st) ->
  Forall is_half_word (sink (snd (search_ops Bin.push_word variants blob line st))).
Proof.
  intros R F. induction R as [|op variants Hop R IH]; cbn [search_ops]; [exact F|].
  destruct (RegExp.js_match blob (regex op)) as [m|]; [|exact IH].
  destruct (labels st) as [l|].
  - destruct (parse_args (args op) 0 m l (getOpCode (base op))) as [e|opCode] eqn:E;
      [exact F|].
    apply emit_half_words; [|exact F]. intros S.
    destruct Hop as [L|[Hb Ha]]; [congruence|].
    exact (parse_args_half_word _ _ _ _ _ _ Ha Hb E).
  - apply emit_half_words; [|exact F]. intros S.
    destruct Hop as [L|[Hb _]]; [congruence|exact Hb].
Qed.

Lemma assemble_line_half_words line (st : engine (list number)) :
  Forall is_half_word (sink st) ->
  Forall is_half_word (sink (snd (assemble_line Bin.push_word line st))).
Proof.
  intros F. unfold assemble_line.
  set (st1 := match labels st with Some _ => _ | None => _ end).
  assert (F1 : Forall is_half_word (sink st1))
    by (subst st1; destruct (labels st); exact F).
  clearbody st1. clear F st.
  destruct (bool_decide _); [exact F1|].
  destruct (bool_decide _).
  { destruct (js_in _ _); exact F1. }
  destruct (tokenize _) as [opName blob].
  destruct (negb _); [exact F1|].
  destruct (ops_get opName ops) as [variants|] eqn:G.
  - apply search_ops_half_words; [|exact F1].
    exact (ops_get_rows_ok _ _ _ ops_rows_ok G).
  - destruct (0 <? inherited_length opName); exact F1.
Qed.

Lemma forEach_half_words asmLines (st : engine (list number)) :
  Forall is_half_word (sink st) ->
  Forall is_half_word (sink (snd (forEach Bin.push_word asmLines st))).
Proof.
  revert st. induction asmLines as [|line asmLines IH]; intros st F; cbn [forEach];
    [exact F|].
  pose proof (assemble_line_half_words line st F) as L.
  destruct (assemble_line Bin.push_word line st) as [[e|u] s1]; cbn [snd] in *.
  - exact L.
  - apply IH, L.
Qed.

(** The words pass 2 emits are half-words, also when it throws midway. *)
Lemma pass2_half_words asmLines labels : Forall is_half_word (snd (pass2 asmLines labels)).
Proof.
  unfold pass2, assembleInternal.
  match goal with
  | |- context [forEach Bin.push_word asmLines ?i] =>
      pose proof (forEach_half_words asmLines i (List.Forall_nil _)) as F;
      destruct (forEach Bin.push_word asmLines i) as [[e|u] s]
  end; exact F.
Qed.

Lemma emit_wide {B : Type} (wordCallback : number -> B -> B) op opCode (st : engine B) :
  (16 <? JsString.length (base op)) = true ->
  sink (snd (emit wordCallback op opCode st))
  = wordCallback (Fin (JsNumber.ToInt32 opCode .& 65535))
      (wordCallback (Fin (JsNumber.ToInt32 opCode >>> 16)) (sink st)).
Proof. intros H. unfold emit. rewrite H. reflexivity. Qed.

(** C10. Every half-word [assembleBlock] produces lies in [0, 65535]: the
    strings of [src/assembler.ts] are the hexadecimal renderings of such
    values and the numbers of the compiled build are such values.  A
    32-bit template hands the callback the high sixteen bits of the
    composed opcode, taken with the unsigned shift, and then its low
    sixteen bits.  A 16-bit template of the table has a base that is a
    half-word and composes, with whatever its converters return, an
    opcode that is a half-word. *)
Theorem C10_half_words_in_range :
  (forall asmLines out,
      fst (assembleBlock asmLines) = Some out ->
      Forall (fun s => exists w, half_word w /\ s = as_hex (Fin w)) out)
  /\ (forall asmLines out,
        fst (Bin.assembleBlock asmLines) = Some out -> Forall half_word out)
  /\ (forall (B : Type) (wordCallback : number -> B -> B) op opCode (st : engine B),
        (16 <? JsString.length (base op)) = true ->
        exists high low,
          half_word high /\ half_word low
          /\ high * 65536 + low = JsNumber.ToUint32 opCode
          /\ sink (snd (emit wordCallback op opCode st))
             = wordCallback (Fin low) (wordCallback (Fin high) (sink st)))
  /\ (forall opName variants op m labels opCode,
        ops_get opName ops = Some variants -> In op variants ->
        (16 <? JsString.length (base op)) = false ->
        is_half_word (getOpCode (base op))
        /\ (parse_args (args op) 0 m labels (getOpCode (base op)) = inr opCode ->
            is_half_word opCode)).
Proof.
  split; [|split; [|split]].
  - intros asmLines out. unfold assembleBlock. rewrite assemble_passes.
    destruct (pass1 asmLines) as [e|l]; [discriminate|].
    pose proof (pass2_half_words asmLines l) as F.
    destruct (pass2 asmLines l) as [[e|l'] words]; [discriminate|].
    cbn [fst snd] in *. intros [= <-]. rewrite replay_push_hex.
    induction F as [|w words (z & -> & Hz) F IH]; cbn [map]; constructor.
    + exists z. split; [assumption|reflexivity].
    + exact IH.
  - intros asmLines out. unfold Bin.assembleBlock. rewrite Bin_assemble_passes.
    destruct (pass1 asmLines) as [e|l]; [discriminate|].
    pose proof (pass2_half_words asmLines l) as F.
    destruct (pass2 asmLines l) as [[e|l'] words]; [discriminate|].
    cbn [fst snd] in *. intros [= <-]. rewrite replay_push_word.
    assert (G : forall ws, Forall is_half_word ws -> Forall half_word (map JsNumber.ToUint32 ws)).
    { induction 1 as [|w ws (z & -> & Hz) _ IH]; cbn [map]; constructor; [|exact IH].
      unfold half_word in *. cbn [JsNumber.ToUint32].
      rewrite Z.mod_small; [assumption|]. change (2 ^ 32) with 4294967296. lia. }
    apply G. destruct (_ =? 1); [|exact F].
    rewrite Forall_app. split; [exact F|].
    repeat constructor. exists 0. split; [reflexivity|unfold half_word; lia].
  - intros B cb op opCode st W.
    destruct (halves_in_range opCode) as (Hh & Hl & Hs).
    exists (JsNumber.ToInt32 opCode >>> 16), (JsNumber.ToInt32 opCode .& 65535).
    repeat split; try apply Hh; try apply Hl; [exact Hs|].
    apply emit_wide, W.
  - intros opName variants op m l opCode G I N.
    pose proof (ops_get_rows_ok _ _ _ ops_rows_ok G) as R.
    rewrite Forall_forall in R. specialize (R op).
    destruct R as [L|[Hb Ha]]; [apply list_elem_of_In; exact I|congruence|].
    split; [exact Hb|]. intros E.
    exact (parse_args_half_word _ _ _ _ _ _ Ha Hb E).
Qed.

(** C10 on the three lines of the loop. *)
Lemma C10_loop_example_half_words : Forall half_word [14337; 53757].
Proof.
  apply (proj1 (proj2 C10_half_words_in_range) loop_example).
  vm_compute. reflexivity.
Defined.

(* ===================================================================== *)
(** * Further properties of the assembler *)
(* ===================================================================== *)

(** ** The 32-bit operators on small operands *)

Lemma shl_small a n k :
  0 <= a < 2 ^ k -> 0 <= n -> 0 <= k -> k + n <= 31 -> a << n = a * 2 ^ n.
Proof.
  intros Ha Hn Hk Hkn. unfold Int32.shl.
  pose proof (pow2_le k 31 ltac:(lia)) as P1.
  pose proof (pow2_le (k + n) 31 ltac:(lia)) as P2.
  pose proof (pow2_pos n Hn) as P3.
  rewrite (wrap_small a) by lia.
  rewrite count_small by lia.
  rewrite Z.shiftl_mul_pow2 by lia.
  assert (B : 0 <= a * 2 ^ n < 2 ^ (k + n)).
  { rewrite Z.pow_add_r by lia. nia. }
  rewrite wrap_small; lia.
Qed.

Lemma shr_small a n :
  - 2 ^ 31 <= a < 2 ^ 31 -> 0 <= n <= 31 -> a >> n = a / 2 ^ n.
Proof.
  intros Ha Hn. unfold Int32.shr.
  rewrite wrap_small, count_small by lia.
  apply Z.shiftr_div_pow2. lia.
Qed.

Lemma and_ones_eq a n :
  - 2 ^ 31 <= a < 2 ^ 31 -> 0 <= n <= 30 -> a .& (2 ^ n - 1) = a mod 2 ^ n.
Proof.
  intros Ha H. unfold Int32.and.
  pose proof (pow2_le n 30 ltac:(lia)) as P. change (2 ^ 30) with 1073741824 in P.
  pose proof (pow2_pos n ltac:(lia)) as P'.
  rewrite (wrap_small (2 ^ n - 1)) by (change (2 ^ 31) with 2147483648; lia).
  rewrite (wrap_small a) by lia.
  replace (2 ^ n - 1) with (Z.ones n) by (rewrite Z.ones_equiv; lia).
  apply Z.land_ones. lia.
Qed.

Lemma or_small a b : 0 <= a < 2 ^ 31 -> 0 <= b < 2 ^ 31 -> a .| b = Z.lor a b.
Proof. intros Ha Hb. unfold Int32.or. rewrite !wrap_small by lia. reflexivity. Qed.

(** A field placed above [k] low bits adds to them. *)
Lemma lor_disjoint a b k : 0 <= k -> 0 <= b < 2 ^ k -> Z.lor (a * 2 ^ k) b = a * 2 ^ k + b.
Proof.
  intros Hk Hb.
  assert (D : Z.land (a * 2 ^ k) b = 0).
  { apply Z.bits_inj'. intros n Hn. rewrite Z.land_spec, Z.bits_0.
    destruct (Z.lt_ge_cases n k) as [L|G].
    - rewrite Z.mul_pow2_bits_low by lia. reflexivity.
    - pose proof (pow2_le k n ltac:(lia)).
      destruct (Z.eq_dec b 0) as [->|N]; [rewrite Z.bits_0; apply andb_false_r|].
      rewrite (Z.bits_above_log2 b n); [apply andb_false_r|lia|].
      apply Z.log2_lt_pow2; lia. }
  rewrite <- Z.lxor_lor by exact D. symmetry. apply Z.add_nocarry_lxor, D.
Qed.

(* ===================================================================== *)
(** ** [convertInt]: the values it takes and the field it stores *)
(* ===================================================================== *)

Lemma convertInt_cases (offset bits shift : Z) (signed : bool) (value : string)
    (labels : label_table) (value' : string) (v : Z) :
  0 <= offset -> 1 <= bits -> 0 <= shift -> bits + shift <= 30 -> bits + offset <= 31 ->
  convertInt_value value labels = inr (value', Fin v) ->
  let low := if signed then - 2 ^ (bits - 1) else 0 in
  let high := (2 ^ bits - 1) * 2 ^ shift + low in
  if (low <=? v) && (v <=? high) && (v mod 2 ^ shift =? 0)
  then convertInt offset bits shift signed value labels
       = inr ((v / 2 ^ shift) mod 2 ^ bits * 2 ^ offset)
  else exists msg, convertInt offset bits shift signed value labels = inl (Thrown msg).
Proof.
  intros Ho Hb Hs Hbs Hbo E low high.
  pose proof (pow2_pos bits ltac:(lia)) as Pb.
  pose proof (pow2_pos shift Hs) as Ps.
  pose proof (pow2_pos (bits - 1) ltac:(lia)) as Pb1.
  pose proof (pow2_le (bits + shift) 30 ltac:(lia)) as P30.
  change (2 ^ 30) with 1073741824 in P30.
  rewrite Z.pow_add_r in P30 by lia.
  assert (Hhalf : 2 ^ bits = 2 * 2 ^ (bits - 1)).
  { rewrite <- Z.pow_succ_r by lia. f_equal. lia. }
  assert (M1 : 1 << bits = 2 ^ bits) by (apply one_shl; lia).
  assert (M2 : 1 << shift = 2 ^ shift) by (apply one_shl; lia).
  assert (M3 : 1 << (bits - 1) = 2 ^ (bits - 1)) by (apply one_shl; lia).
  assert (M4 : (2 ^ bits - 1) << shift = (2 ^ bits - 1) * 2 ^ shift).
  { apply (shl_small _ _ bits); lia. }
  assert (Hmax : ((1 << bits) - 1) << shift = (2 ^ bits - 1) * 2 ^ shift)
    by (rewrite M1; exact M4).
  assert (Hlow : low = if signed then - (1 << (bits - 1)) else 0)
    by (subst low; destruct signed; [now rewrite M3|reflexivity]).
  assert (Hc : convertInt offset bits shift signed value labels
               = if JsNumber.geb (Fin v) (Fin low) && JsNumber.leb (Fin v) (Fin high)
                    && ((JsNumber.ToInt32 (Fin v) .& ((1 << shift) - 1)) =? 0)
                 then inr (((JsNumber.ToInt32 (Fin v) >> shift) .& ((1 << bits) - 1)) << offset)
                 else inl (Thrown
                        (let msg := [Txt "Invalid number '"; Txt value'; Txt "' ("; Num (Fin v);
                                     Txt ") - must be between 0 and "; Num (Fin high)] in
                         if negb (shift =? 0)
                         then msg ++ [Txt " and a multiple of "; Num (Fin (1 << shift))]
                         else msg))).
  { unfold convertInt. rewrite E. subst high low. destruct signed.
    - rewrite M3, Hmax. reflexivity.
    - rewrite Hmax, Z.add_0_r. reflexivity. }
  rewrite Hc. clear Hc. cbn [JsNumber.geb JsNumber.leb JsNumber.ToInt32].
  assert (Hbound : - 2 ^ (bits - 1) <= low <= 0) by (subst low; destruct signed; lia).
  destruct (Z.leb_spec low v) as [L|L]; cbn [andb]; [|eauto].
  destruct (Z.leb_spec v high) as [H|H]; cbn [andb]; [|eauto].
  assert (R : - 2 ^ 31 <= v < 2 ^ 31).
  { change (2 ^ 31) with 2147483648. subst high. nia. }
  fold (Int32.wrap v). rewrite (wrap_small v R), M1, M2.
  rewrite (and_ones_eq v shift R) by lia.
  destruct (Z.eqb_spec (v mod 2 ^ shift) 0) as [D|D]; [|eauto].
  f_equal.
  rewrite (shr_small v shift R) by lia.
  assert (Q : - 2 ^ 31 <= v / 2 ^ shift < 2 ^ 31).
  { split.
    - apply Z.div_le_lower_bound; [lia|]. nia.
    - apply Z.div_lt_upper_bound; [lia|]. nia. }
  rewrite (and_ones_eq _ bits Q) by lia.
  apply (shl_small _ _ bits); try lia.
  apply Z.mod_pos_bound. lia.
Qed.

(** For a field of [bits] bits scaled by [shift], whatever text the value
    [v] came from: [convertInt] takes [v] exactly when it is a multiple
    of [2^shift] between the lower bound, 0 or [-2^(bits-1)] when signed,
    and [(2^bits - 1) * 2^shift] plus that lower bound; it then returns
    the floor of [v / 2^shift], reduced modulo [2^bits], placed at
    [offset]. Any other value is thrown as a message string. *)
Theorem convertInt_range (offset bits shift : Z) (signed : bool) (value : string)
    (labels : label_table) (value' : string) (v : Z) :
  0 <= offset -> 1 <= bits -> 0 <= shift -> bits + shift <= 30 -> bits + offset <= 31 ->
  convertInt_value value labels = inr (value', Fin v) ->
  let low := if signed then - 2 ^ (bits - 1) else 0 in
  let high := (2 ^ bits - 1) * 2 ^ shift + low in
  if (low <=? v) && (v <=? high) && (v mod 2 ^ shift =? 0)
  then convertInt offset bits shift signed value labels
       = inr ((v / 2 ^ shift) mod 2 ^ bits * 2 ^ offset)
  else exists msg, convertInt offset bits shift signed value labels = inl (Thrown msg).
Proof. exact (convertInt_cases offset bits shift signed value labels value' v). Qed.

(** On the conditional-branch converter [sint(0, 8, 1)] and the
    displacement -6. *)
Lemma convertInt_range_branch : sint 0 8 1 "#-6" ∅ = inr 253.
Proof.
  exact (convertInt_range 0 8 1 true "#-6" ∅ "#-6" (-6)
           ltac:(lia) ltac:(lia) ltac:(lia) ltac:(lia) ltac:(lia) eq_refl).
Defined.

(** An unsigned field reads back as [v / 2^shift]: no reduction happens
    inside the accepted range. *)
Theorem uint_round_trip (offset bits shift : Z) (value : string) (labels : label_table)
    (value' : string) (v r : Z) :
  0 <= offset -> 1 <= bits -> 0 <= shift -> bits + shift <= 30 -> bits + offset <= 31 ->
  convertInt_value value labels = inr (value', Fin v) ->
  uint offset bits shift value labels = inr r ->
  0 <= v <= (2 ^ bits - 1) * 2 ^ shift
  /\ v mod 2 ^ shift = 0
  /\ (r / 2 ^ offset) mod 2 ^ bits = v / 2 ^ shift
  /\ v / 2 ^ shift * 2 ^ shift = v.
Proof.
  intros Ho Hb Hs Hbs Hbo E U.
  pose proof (convertInt_cases offset bits shift false value labels value' v
                Ho Hb Hs Hbs Hbo E) as C.
  cbv zeta in C. unfold uint in U. rewrite U in C.
  pose proof (pow2_pos bits ltac:(lia)) as Pb.
  pose proof (pow2_pos shift Hs) as Ps.
  pose proof (pow2_pos offset Ho) as Po.
  destruct (Z.leb_spec 0 v) as [L|L]; cbn [andb] in C; [|destruct C; discriminate].
  destruct (Z.leb_spec v ((2 ^ bits - 1) * 2 ^ shift + 0)) as [H|H]; cbn [andb] in C;
    [|destruct C; discriminate].
  destruct (Z.eqb_spec (v mod 2 ^ shift) 0) as [D|D]; [|destruct C; discriminate].
  injection C as ->.
  assert (Q : 0 <= v / 2 ^ shift < 2 ^ bits).
  { split; [apply Z.div_pos; lia|]. apply Z.div_lt_upper_bound; [lia|]. nia. }
  repeat split; try lia.
  - rewrite (Z.mod_small _ _ Q), Z.div_mul by lia. apply Z.mod_small, Q.
  - pose proof (Z.div_mod v (2 ^ shift) ltac:(lia)). lia.
Qed.

(** On the word offset 8 of a PC-relative load, [uint(0, 8, 2)]. *)
Lemma uint_round_trip_ldr :
  0 <= 8 <= (2 ^ 8 - 1) * 2 ^ 2
  /\ 8 mod 2 ^ 2 = 0
  /\ (2 / 2 ^ 0) mod 2 ^ 8 = 8 / 2 ^ 2
  /\ 8 / 2 ^ 2 * 2 ^ 2 = 8.
Proof.
  apply (uint_round_trip 0 8 2 "#8" ∅ "#8" 8 2); try lia; vm_compute; reflexivity.
Defined.

(* ===================================================================== *)
(** ** [thumb2ImmediateT3] and [blAddr]: the fields read back *)
(* ===================================================================== *)

Lemma number_in_range (x : number) (lo hi : Z) :
  JsNumber.geb x (Fin lo) && JsNumber.ltb x (Fin hi) = true ->
  exists z, x = Fin z /\ lo <= z < hi.
Proof.
  destruct x as [|b|z]; cbn.
  - discriminate.
  - destruct b; discriminate.
  - intros H. apply andb_true_iff in H as [H1 H2]. exists z. split; [reflexivity|lia].
Qed.

Lemma or_add a b k :
  0 <= k <= 31 -> 0 <= a -> a * 2 ^ k < 2 ^ 31 -> 0 <= b < 2 ^ k ->
  a * 2 ^ k .| b = a * 2 ^ k + b.
Proof.
  intros Hk Ha Hs Hb. pose proof (pow2_pos k ltac:(lia)).
  pose proof (pow2_le k 31 Hk).
  rewrite or_small by nia. apply lor_disjoint; [lia|assumption].
Qed.

Lemma div_small_range v d : 0 <= v < 2 ^ 31 -> 0 < d -> - 2 ^ 31 <= v / d < 2 ^ 31.
Proof.
  intros Hv Hd. change (2 ^ 31) with 2147483648 in *. split.
  - apply Z.div_le_lower_bound; nia.
  - apply Z.div_lt_upper_bound; nia.
Qed.

(** The pattern [thumb2ImmediateT3] builds from a value of 16 bits. *)
Lemma t3_pattern v :
  0 <= v < 65536 ->
  ((((v >> 11) .& 1) << 26) .| (((v >> 12) .& 15) << 16) .| (((v >> 8) .& 7) << 12)
   .| (v .& 255))
  = (v / 2048) mod 2 * 67108864 + (v / 4096) mod 16 * 65536
    + (v / 256) mod 8 * 4096 + v mod 256.
Proof.
  intros Hv.
  assert (R : - 2 ^ 31 <= v < 2 ^ 31) by (change (2 ^ 31) with 2147483648; lia).
  assert (R' : 0 <= v < 2 ^ 31) by (change (2 ^ 31) with 2147483648; lia).
  rewrite !(shr_small v) by (try exact R; lia).
  change 15 with (2 ^ 4 - 1). change 1 with (2 ^ 1 - 1) at 1.
  change 7 with (2 ^ 3 - 1). change 255 with (2 ^ 8 - 1).
  rewrite !and_ones_eq by (try (apply div_small_range; [exact R'|reflexivity]); try exact R; lia).
  change (2 ^ 11) with 2048. change (2 ^ 12) with 4096 at 1. change (2 ^ 8) with 256.
  change (2 ^ 1) with 2. change (2 ^ 4) with 16. change (2 ^ 3) with 8.
  set (imm4 := (v / 4096) mod 16). set (i := (v / 2048) mod 2).
  set (imm3 := (v / 256) mod 8). set (imm8 := v mod 256).
  assert (B4 : 0 <= imm4 < 16) by (apply Z.mod_pos_bound; lia).
  assert (B1 : 0 <= i < 2) by (apply Z.mod_pos_bound; lia).
  assert (B3 : 0 <= imm3 < 8) by (apply Z.mod_pos_bound; lia).
  assert (B8 : 0 <= imm8 < 256) by (apply Z.mod_pos_bound; lia).
  rewrite (shl_small i 26 1), (shl_small imm4 16 4), (shl_small imm3 12 3)
    by (try lia; change (2 ^ 1) with 2; change (2 ^ 4) with 16; change (2 ^ 3) with 8; lia).
  change (2 ^ 26) with 67108864. change (2 ^ 16) with 65536. change (2 ^ 12) with 4096.
  replace (i * 67108864) with (i * 64 * 2 ^ 20) by (change (2 ^ 20) with 1048576; lia).
  rewrite (or_add (i * 64) (imm4 * 65536) 20)
    by (change (2 ^ 20) with 1048576; change (2 ^ 31) with 2147483648; lia).
  replace (i * 64 * 2 ^ 20 + imm4 * 65536) with ((i * 2048 + imm4 * 2) * 2 ^ 15)
    by (change (2 ^ 20) with 1048576; change (2 ^ 15) with 32768; lia).
  rewrite (or_add (i * 2048 + imm4 * 2) (imm3 * 4096) 15)
    by (change (2 ^ 15) with 32768; change (2 ^ 31) with 2147483648; lia).
  replace ((i * 2048 + imm4 * 2) * 2 ^ 15 + imm3 * 4096)
    with ((i * 262144 + imm4 * 256 + imm3 * 16) * 2 ^ 8)
    by (change (2 ^ 15) with 32768; change (2 ^ 8) with 256; lia).
  rewrite (or_add _ imm8 8)
    by (change (2 ^ 8) with 256; change (2 ^ 31) with 2147483648; lia).
  change (2 ^ 8) with 256. lia.
Qed.

(** Whatever [thumb2ImmediateT3] returns was parsed from the text after
    the [#] as a value of 0 .. 65535, and the four fields of the pattern
    read back as that value. *)
Theorem thumb2ImmediateT3_round_trip (value : string) (labels : label_table) (pattern : Z) :
  thumb2ImmediateT3 value labels = inr pattern ->
  exists v,
    JsString.head value = Some "#"%char
    /\ JsParse.parseInt (JsString.substr value 1 None) 0 = Fin v
    /\ 0 <= v < 65536
    /\ 0 <= pattern < 2 ^ 27
    /\ t3_immediate pattern = v.
Proof.
  unfold thumb2ImmediateT3.
  destruct (bool_decide (JsString.head value = Some "#"%char)) eqn:Hh; cbn [negb];
    [|discriminate].
  apply bool_decide_eq_true in Hh.
  destruct (JsNumber.geb _ _ && JsNumber.ltb _ _) eqn:C; [|discriminate].
  apply number_in_range in C as (v & -> & Hv).
  cbn [JsNumber.ToInt32]. fold (Int32.wrap v).
  rewrite (wrap_small v) by (change (2 ^ 31) with 2147483648; lia).
  rewrite (t3_pattern v Hv). intros [= <-].
  exists v. repeat split; try assumption; try lia.
  - pose proof (Z.mod_pos_bound (v / 2048) 2 ltac:(lia)).
    pose proof (Z.mod_pos_bound (v / 4096) 16 ltac:(lia)).
    pose proof (Z.mod_pos_bound (v / 256) 8 ltac:(lia)).
    pose proof (Z.mod_pos_bound v 256 ltac:(lia)). lia.
  - pose proof (Z.mod_pos_bound (v / 2048) 2 ltac:(lia)).
    pose proof (Z.mod_pos_bound (v / 4096) 16 ltac:(lia)).
    pose proof (Z.mod_pos_bound (v / 256) 8 ltac:(lia)).
    pose proof (Z.mod_pos_bound v 256 ltac:(lia)).
    change (2 ^ 27) with 134217728. lia.
  - unfold t3_immediate. change (2 ^ 16) with 65536. change (2 ^ 26) with 67108864.
    change (2 ^ 12) with 4096.
    Z.div_mod_to_equations. lia.
Qed.

(** On the immediate 0x1234 of [movw]. *)
Lemma thumb2ImmediateT3_round_trip_movw :
  exists v,
    JsString.head "#4660" = Some "#"%char
    /\ JsParse.parseInt (JsString.substr "#4660" 1 None) 0 = Fin v
    /\ 0 <= v < 65536
    /\ 0 <= 73780 < 2 ^ 27
    /\ t3_immediate 73780 = v.
Proof. apply (thumb2ImmediateT3_round_trip "#4660" ∅ 73780). vm_compute. reflexivity. Defined.

Lemma blAddr_split (value : string) (labels : label_table) (pattern : Z) :
  blAddr value labels = inr pattern ->
  exists field,
    sint 0 22 1 value labels = inr field
    /\ 0 <= field < 2 ^ 22
    /\ pattern = field / 2048 * 65536 + field mod 2048
    /\ pattern / 65536 * 2048 + pattern mod 65536 = field.
Proof.
  unfold blAddr.
  destruct (sint 0 22 1 value labels) as [e|field] eqn:E; [discriminate|].
  pose proof (convertInt_fits 0 22 1 true ltac:(lia) ltac:(lia) ltac:(lia)
                value labels field E) as F.
  change (22 + 0) with 22 in F. change (2 ^ 22) with 4194304 in *.
  assert (R : - 2 ^ 31 <= field < 2 ^ 31) by (change (2 ^ 31) with 2147483648; lia).
  assert (R' : 0 <= field < 2 ^ 31) by (change (2 ^ 31) with 2147483648; lia).
  rewrite (shr_small field 11 R) by lia.
  change 2047 with (2 ^ 11 - 1).
  rewrite !and_ones_eq by (try (apply div_small_range; [exact R'|reflexivity]); try exact R; lia).
  change (2 ^ 11) with 2048.
  assert (H : 0 <= field / 2048 < 2048).
  { split; [apply Z.div_pos; lia|apply Z.div_lt_upper_bound; lia]. }
  rewrite (Z.mod_small (field / 2048) 2048 H).
  rewrite (shl_small (field / 2048) 16 11) by (try lia; change (2 ^ 11) with 2048; lia).
  pose proof (Z.mod_pos_bound field 2048 ltac:(lia)) as L.
  rewrite (or_add (field / 2048) (field mod 2048) 16)
    by (change (2 ^ 16) with 65536; change (2 ^ 31) with 2147483648; lia).
  change (2 ^ 16) with 65536. intros [= <-].
  exists field. repeat split; try lia.
  Z.div_mod_to_equations. lia.
Qed.

(** The pattern [blAddr] returns is the 22-bit field of [sint(0, 22, 1)]
    cut in two: its upper eleven bits sit in bits 26..16, for the first
    half-word, its lower eleven bits in bits 10..0, for the second; the
    two halves put together give the field back. *)
Theorem blAddr_halves (value : string) (labels : label_table) (pattern : Z) :
  blAddr value labels = inr pattern ->
  exists field,
    sint 0 22 1 value labels = inr field
    /\ 0 <= field < 2 ^ 22
    /\ pattern = field / 2048 * 65536 + field mod 2048
    /\ pattern / 65536 * 2048 + pattern mod 65536 = field.
Proof. exact (blAddr_split value labels pattern). Qed.

(** On a forward branch of two bytes. *)
Lemma blAddr_halves_forward :
  exists field,
    sint 0 22 1 "#2" ∅ = inr field
    /\ 0 <= field < 2 ^ 22
    /\ 1 = field / 2048 * 65536 + field mod 2048
    /\ 1 / 65536 * 2048 + 1 mod 65536 = field.
Proof. apply (blAddr_halves "#2" ∅ 1). vm_compute. reflexivity. Defined.

(* ===================================================================== *)
(** ** [.word]: which half comes first *)
(* ===================================================================== *)

Lemma wrap_range x : - 2 ^ 31 <= Int32.wrap x < 2 ^ 31.
Proof.
  unfold Int32.wrap, JsNumber.wrap32.
  pose proof (Z.mod_pos_bound (x + 2 ^ 31) (2 ^ 32) ltac:(lia)).
  change (2 ^ 32) with (2 * 2 ^ 31) in *. lia.
Qed.

Lemma wrap_mod32 x : Int32.wrap x mod 2 ^ 32 = x mod 2 ^ 32.
Proof.
  unfold Int32.wrap, JsNumber.wrap32.
  rewrite Zminus_mod_idemp_l. f_equal. lia.
Qed.

Lemma lor_mod a b k : 0 <= k -> Z.lor a b mod 2 ^ k = Z.lor (a mod 2 ^ k) (b mod 2 ^ k).
Proof.
  intros Hk. rewrite <- !Z.land_ones by exact Hk. apply Z.land_lor_distr_l.
Qed.

Lemma or_mod32 a b : (a .| b) mod 2 ^ 32 = Z.lor (a mod 2 ^ 32) (b mod 2 ^ 32).
Proof. unfold Int32.or. rewrite lor_mod by lia. now rewrite !wrap_mod32. Qed.

(** The 32-bit pattern of [(vi >> 16) | (vi << 16)]. *)
Lemma swap_pattern z :
  let u := z mod 2 ^ 32 in
  let vi := Int32.wrap z in
  ((vi >> 16) .| (vi << 16)) mod 2 ^ 32
  = (if u <? 2 ^ 31 then u mod 65536 else 65535) * 65536 + u / 65536.
Proof.
  intros u vi.
  pose proof (wrap_range z) as R. fold vi in R.
  assert (U : 0 <= u < 2 ^ 32) by (apply Z.mod_pos_bound; lia).
  assert (W : (vi = u /\ u < 2 ^ 31) \/ (vi = u - 2 ^ 32 /\ 2 ^ 31 <= u)).
  { pose proof (wrap_mod32 z) as M. fold vi u in M.
    change (2 ^ 32) with 4294967296 in *. change (2 ^ 31) with 2147483648 in *.
    Z.div_mod_to_equations. lia. }
  rewrite or_mod32.
  unfold Int32.shl. rewrite wrap_mod32.
  rewrite (shr_small vi 16 R) by lia.
  rewrite (wrap_small vi R). change (Z.land 16 31) with 16.
  rewrite Z.shiftl_mul_pow2 by lia.
  change (2 ^ 16) with 65536.
  assert (B : (vi * 65536) mod 2 ^ 32 = u mod 65536 * 2 ^ 16).
  { change (2 ^ 32) with 4294967296 in *. change (2 ^ 31) with 2147483648 in *.
    change (2 ^ 16) with 65536.
    destruct W as [[-> _]|[-> _]]; Z.div_mod_to_equations; lia. }
  rewrite B.
  pose proof (Z.mod_pos_bound u 65536 ltac:(lia)) as L.
  destruct W as [[E Hu]|[E Hu]].
  - destruct (Z.ltb_spec u (2 ^ 31)) as [_|C]; [|lia].
    assert (A : (vi / 65536) mod 2 ^ 32 = u / 65536).
    { rewrite E. apply Z.mod_small.
      change (2 ^ 32) with 4294967296 in *. change (2 ^ 31) with 2147483648 in *.
      split; [apply Z.div_pos; lia|apply Z.div_lt_upper_bound; lia]. }
    rewrite A, Z.lor_comm. apply lor_disjoint; [lia|].
    change (2 ^ 32) with 4294967296 in *. change (2 ^ 16) with 65536.
    split; [apply Z.div_pos; lia|apply Z.div_lt_upper_bound; lia].
  - destruct (Z.ltb_spec u (2 ^ 31)) as [C|_]; [lia|].
    change (2 ^ 32) with 4294967296 in *. change (2 ^ 31) with 2147483648 in *.
    assert (H : 32768 <= u / 65536 < 65536).
    { split; [apply Z.div_le_lower_bound; lia|apply Z.div_lt_upper_bound; lia]. }
    assert (A : (vi / 65536) mod 4294967296 = 65535 * 2 ^ 16 + u / 65536).
    { rewrite E. change (2 ^ 16) with 65536. Z.div_mod_to_equations. lia. }
    rewrite A.
    rewrite <- (lor_disjoint 65535 (u / 65536) 16) by (change (2 ^ 16) with 65536; lia).
    rewrite <- Z.lor_assoc, (Z.lor_comm (u / 65536)), Z.lor_assoc.
    rewrite <- !Z.shiftl_mul_pow2 by lia. rewrite <- Z.shiftl_lor.
    change 65535 with (Z.ones 16).
    rewrite (Z.lor_comm (Z.ones 16)).
    assert (O : Z.lor (u mod 65536) (Z.ones 16) = Z.ones 16).
    { destruct (Z.eq_dec (u mod 65536) 0) as [->|N]; [reflexivity|].
      apply Z.lor_ones_low; [lia|]. apply Z.log2_lt_pow2; [lia|].
      change (2 ^ 16) with 65536. lia. }
    rewrite O, Z.shiftl_mul_pow2 by lia.
    apply lor_disjoint; [lia|]. change (2 ^ 16) with 65536. lia.
Qed.

(** The two half-words a [.word] line hands to the callback, in order:
    for a literal below [2^31] its low half and then its high half; from
    [2^31] on the arithmetic shift fills the pattern with the sign, and
    the first half-word is 0xFFFF whatever the low half of the literal. *)
Theorem word_literal_halves (radix : Z) (text : string) (labels : label_table)
    (m : list string) (z : Z) (opCode : number) :
  m !! 1%nat = Some text ->
  JsParse.parseInt text radix = Fin z ->
  parse_args [word_literal radix] 0 m labels (getOpCode word_template) = inr opCode ->
  JsNumber.ToInt32 opCode >>> 16
  = (if z mod 2 ^ 32 <? 2 ^ 31 then (z mod 2 ^ 32) mod 65536 else 65535)
  /\ JsNumber.ToInt32 opCode .& 65535 = (z mod 2 ^ 32) / 65536.
Proof.
  intros Hm Hp. cbn [parse_args]. rewrite Hm. unfold word_literal. rewrite Hp.
  intros [= <-]. rewrite ushr16_high, and16_low.
  cbn [JsNumber.ToUint32 JsNumber.ToInt32]. fold (Int32.wrap z).
  rewrite or_mod32.
  replace (getOpCode word_template) with (Fin 0) by (vm_compute; reflexivity).
  cbn [JsNumber.ToInt32]. fold (Int32.wrap 0). rewrite wrap_mod32.
  change (0 mod 2 ^ 32) with 0. rewrite Z.lor_0_l.
  pose proof (swap_pattern z) as S. cbv zeta in S. rewrite S. clear S.
  set (first := if z mod 2 ^ 32 <? 2 ^ 31 then (z mod 2 ^ 32) mod 65536 else 65535).
  assert (F : 0 <= first < 65536).
  { subst first. destruct (_ <? _); [apply Z.mod_pos_bound|]; lia. }
  assert (U : 0 <= z mod 2 ^ 32 < 2 ^ 32) by (apply Z.mod_pos_bound; lia).
  assert (H : 0 <= (z mod 2 ^ 32) / 65536 < 65536).
  { change (2 ^ 32) with 4294967296 in *.
    split; [apply Z.div_pos; lia|apply Z.div_lt_upper_bound; lia]. }
  change (2 ^ 16) with 65536. split.
  - rewrite Z.div_add_l by lia. rewrite (Z.div_small _ _ H). lia.
  - rewrite Z.add_comm, Z.mod_add by lia. apply Z.mod_small, H.
Qed.

(** On the literal 0xdeadbeef, whose top bit is set. *)
Lemma word_literal_halves_deadbeef :
  JsNumber.ToInt32 (Fin (-8531)) >>> 16
  = (if 3735928559 mod 2 ^ 32 <? 2 ^ 31 then (3735928559 mod 2 ^ 32) mod 65536 else 65535)
  /\ JsNumber.ToInt32 (Fin (-8531)) .& 65535 = (3735928559 mod 2 ^ 32) / 65536.
Proof.
  apply (word_literal_halves 16 "deadbeef" ∅ ["0xdeadbeef"; "deadbeef"] 3735928559);
    vm_compute; reflexivity.
Defined.

(* ===================================================================== *)
(** ** Converters write into placeholder positions only *)
(* ===================================================================== *)

Lemma within_field x k off :
  0 <= x < 2 ^ k -> 0 <= k -> 0 <= off ->
  Z.land (x * 2 ^ off) ((2 ^ k - 1) * 2 ^ off) = x * 2 ^ off.
Proof.
  intros Hx Hk Ho.
  rewrite <- !Z.shiftl_mul_pow2 by lia. rewrite <- Z.shiftl_land. f_equal.
  replace (2 ^ k - 1) with (Z.ones k) by (rewrite Z.ones_equiv; lia).
  rewrite Z.land_ones by lia. apply Z.mod_small, Hx.
Qed.

Lemma within_lor a b ma mb :
  Z.land a ma = a -> Z.land b mb = b -> Z.land (Z.lor a b) (Z.lor ma mb) = Z.lor a b.
Proof.
  intros Ha Hb. apply Z.bits_inj'. intros n Hn.
  apply (f_equal (fun t => Z.testbit t n)) in Ha, Hb.
  rewrite Z.land_spec in Ha, Hb. rewrite Z.land_spec, !Z.lor_spec.
  destruct (Z.testbit a n), (Z.testbit b n), (Z.testbit ma n), (Z.testbit mb n);
    cbn in *; congruence.
Qed.

Lemma within_lor_l a ma mb : Z.land a ma = a -> Z.land a (Z.lor ma mb) = a.
Proof.
  intros Ha. apply Z.bits_inj'. intros n Hn.
  apply (f_equal (fun t => Z.testbit t n)) in Ha.
  rewrite Z.land_spec in Ha. rewrite Z.land_spec, Z.lor_spec.
  destruct (Z.testbit a n), (Z.testbit ma n), (Z.testbit mb n); cbn in *; congruence.
Qed.

Lemma avoids_of_within cmask literal f :
  writes_within cmask f -> Z.land cmask literal = 0 -> avoids literal f.
Proof.
  intros W D text l v E. destruct (W text l v E) as [R Hv].
  rewrite Z.mod_small by (change (2 ^ 32) with (2 * 2 ^ 31); lia).
  rewrite <- Hv, <- Z.land_assoc, D. apply Z.land_0_r.
Qed.

Lemma avoids_nothing f : avoids 0 f.
Proof. intros text l v _. apply Z.land_0_r. Qed.

Lemma reg_within regOffset :
  0 <= regOffset <= 28 -> writes_within (7 * 2 ^ regOffset) (reg regOffset).
Proof.
  intros H text l v. unfold reg.
  destruct (negb _); [discriminate|]. intros Ev.
  assert (Hv : v = member_int32 (assoc text lo_regs) << regOffset) by congruence.
  subst v. clear Ev.
  pose proof (lo_regs_bound text) as B.
  pose proof (shl_bound _ regOffset 3 B ltac:(lia) ltac:(lia) ltac:(lia)) as S.
  pose proof (pow2_le (3 + regOffset) 31 ltac:(lia)) as P.
  pose proof (shl_small _ regOffset 3 B ltac:(lia) ltac:(lia) ltac:(lia)) as E.
  rewrite E in S |- *.
  split; [lia|]. change 7 with (2 ^ 3 - 1). apply within_field; [exact B|lia|lia].
Qed.

Lemma reg4_within regOffset :
  0 <= regOffset <= 27 -> writes_within (15 * 2 ^ regOffset) (reg4 regOffset).
Proof.
  intros H text l v. unfold reg4.
  destruct (negb _); [discriminate|]. intros Ev.
  assert (Hv : v = member_int32 (assoc text reg4_vals) << regOffset) by congruence.
  subst v. clear Ev.
  pose proof (reg4_vals_bound text) as B.
  pose proof (shl_bound _ regOffset 4 B ltac:(lia) ltac:(lia) ltac:(lia)) as S.
  pose proof (pow2_le (4 + regOffset) 31 ltac:(lia)) as P.
  pose proof (shl_small _ regOffset 4 B ltac:(lia) ltac:(lia) ltac:(lia)) as E.
  rewrite E in S |- *.
  split; [lia|]. change 15 with (2 ^ 4 - 1). apply within_field; [exact B|lia|lia].
Qed.

Lemma convertInt_within offset bits shift signed :
  0 <= offset -> 0 <= bits <= 30 -> bits + offset <= 31 ->
  writes_within ((2 ^ bits - 1) * 2 ^ offset) (convertInt offset bits shift signed).
Proof.
  intros Ho Hb H31 text l v E.
  pose proof (convertInt_fits offset bits shift signed Ho Hb H31 text l v E) as F.
  pose proof (pow2_le (bits + offset) 31 ltac:(lia)).
  split; [lia|]. revert E. unfold convertInt.
  destruct signed;
    (destruct (convertInt_value text l) as [e|[value binValue]]; [discriminate|];
     destruct (_ && _); [|discriminate]; intros [= <-];
     rewrite one_shl by lia;
     pose proof (and_ones (JsNumber.ToInt32 binValue >> shift) bits ltac:(lia)) as B;
     rewrite (shl_small _ offset bits B) by lia;
     apply within_field; [exact B|lia|lia]).
Qed.

Lemma rlistLr_within : writes_within 511 rlistLr.
Proof.
  intros text l v E. pose proof (rlistLr_fits text l v E) as F.
  change (2 ^ 9) with 512 in F. split; [change (2 ^ 31) with 2147483648; lia|].
  change 511 with (Z.ones 9). rewrite Z.land_ones by lia. apply Z.mod_small.
  change (2 ^ 9) with 512. lia.
Qed.

Lemma within_low x k : 0 <= x < 2 ^ k -> 0 <= k -> Z.land x (2 ^ k - 1) = x.
Proof.
  intros Hx Hk. replace (2 ^ k - 1) with (Z.ones k) by (rewrite Z.ones_equiv; lia).
  rewrite Z.land_ones by lia. apply Z.mod_small, Hx.
Qed.

Lemma regOrImmediate_within regOffset immediateBit :
  0 <= regOffset <= 28 -> 0 <= immediateBit <= 30 ->
  writes_within (Z.lor (7 * 2 ^ regOffset) (2 ^ immediateBit))
    (regOrImmediate regOffset immediateBit).
Proof.
  intros Ho Hb text l v. unfold regOrImmediate.
  pose proof (pow2_le (3 + regOffset) 31 ltac:(lia)) as P.
  pose proof (pow2_le immediateBit 30 ltac:(lia)) as P'.
  pose proof (pow2_pos immediateBit ltac:(lia)) as P''.
  change (2 ^ 30) with 1073741824 in P'. change (2 ^ 31) with 2147483648 in *.
  destruct (_ && _).
  - set (x := JsNumber.ToInt32 (JsParse.parseInt text 0) .& 7).
    intros Ev. assert (Hv : v = (x << regOffset) .| (1 << immediateBit)) by congruence.
    subst v. clear Ev.
    assert (B : 0 <= x < 2 ^ 3) by (subst x; change 7 with (2 ^ 3 - 1); apply and_ones; lia).
    pose proof (shl_bound x regOffset 3 B ltac:(lia) ltac:(lia) ltac:(lia)) as S.
    rewrite (shl_small x regOffset 3 B) in * by lia.
    rewrite one_shl by lia.
    rewrite or_small by (change (2 ^ 31) with 2147483648; lia).
    split.
    + apply (lor_bound _ _ 31); change (2 ^ 31) with 2147483648; lia.
    + apply within_lor; [|apply Z.land_diag].
      change 7 with (2 ^ 3 - 1). apply within_field; [exact B|lia|lia].
  - destruct (negb _); [discriminate|]. intros Ev.
    assert (Hv : v = member_int32 (assoc text lo_regs) << regOffset) by congruence.
    subst v. clear Ev.
    pose proof (lo_regs_bound text) as B.
    pose proof (shl_bound _ regOffset 3 B ltac:(lia) ltac:(lia) ltac:(lia)) as S.
    pose proof (shl_small _ regOffset 3 B ltac:(lia) ltac:(lia) ltac:(lia)) as E.
    rewrite E in S |- *.
    split; [lia|]. apply within_lor_l.
    change 7 with (2 ^ 3 - 1). apply within_field; [exact B|lia|lia].
Qed.

Lemma thumb2ImmediateT3_within : writes_within 68120831 thumb2ImmediateT3.
Proof.
  intros text l v. unfold thumb2ImmediateT3.
  destruct (negb _); [discriminate|].
  destruct (JsNumber.geb _ _ && JsNumber.ltb _ _) eqn:C; [|discriminate].
  apply number_in_range in C as (z & -> & Hz).
  cbn [JsNumber.ToInt32]. fold (Int32.wrap z).
  rewrite (wrap_small z) by (change (2 ^ 31) with 2147483648; lia).
  rewrite (t3_pattern z Hz). intros [= <-].
  set (imm4 := (z / 4096) mod 16). set (i := (z / 2048) mod 2).
  set (imm3 := (z / 256) mod 8). set (imm8 := z mod 256).
  assert (B4 : 0 <= imm4 < 2 ^ 4) by (apply Z.mod_pos_bound; lia).
  assert (B1 : 0 <= i < 2 ^ 1) by (apply Z.mod_pos_bound; lia).
  assert (B3 : 0 <= imm3 < 2 ^ 3) by (apply Z.mod_pos_bound; lia).
  assert (B8 : 0 <= imm8 < 2 ^ 8) by (apply Z.mod_pos_bound; lia).
  change (2 ^ 4) with 16 in B4. change (2 ^ 1) with 2 in B1.
  change (2 ^ 3) with 8 in B3. change (2 ^ 8) with 256 in B8.
  split; [change (2 ^ 31) with 2147483648; lia|].
  assert (E : i * 67108864 + imm4 * 65536 + imm3 * 4096 + imm8
              = Z.lor (Z.lor (Z.lor (i * 2 ^ 26) (imm4 * 2 ^ 16)) (imm3 * 2 ^ 12)) imm8).
  { replace (i * 2 ^ 26) with (i * 64 * 2 ^ 20)
      by (change (2 ^ 20) with 1048576; change (2 ^ 26) with 67108864; lia).
    rewrite (lor_disjoint (i * 64) (imm4 * 2 ^ 16) 20)
      by (change (2 ^ 20) with 1048576; change (2 ^ 16) with 65536; lia).
    replace (i * 64 * 2 ^ 20 + imm4 * 2 ^ 16) with ((i * 2048 + imm4 * 2) * 2 ^ 15)
      by (change (2 ^ 20) with 1048576; change (2 ^ 15) with 32768;
          change (2 ^ 16) with 65536; lia).
    rewrite (lor_disjoint _ (imm3 * 2 ^ 12) 15)
      by (change (2 ^ 15) with 32768; change (2 ^ 12) with 4096; lia).
    replace ((i * 2048 + imm4 * 2) * 2 ^ 15 + imm3 * 2 ^ 12)
      with ((i * 262144 + imm4 * 256 + imm3 * 16) * 2 ^ 8)
      by (change (2 ^ 15) with 32768; change (2 ^ 8) with 256;
          change (2 ^ 12) with 4096; lia).
    rewrite (lor_disjoint _ imm8 8) by (change (2 ^ 8) with 256; lia).
    change (2 ^ 8) with 256. lia. }
  rewrite E.
  change 68120831
    with (Z.lor (Z.lor (Z.lor ((2 ^ 1 - 1) * 2 ^ 26) ((2 ^ 4 - 1) * 2 ^ 16))
                   ((2 ^ 3 - 1) * 2 ^ 12)) (2 ^ 8 - 1)).
  repeat apply within_lor; try (apply within_field; lia).
  apply within_low; lia.
Qed.

Lemma blAddr_within : writes_within 134154239 blAddr.
Proof.
  intros text l v E.
  destruct (blAddr_split text l v E) as (field & _ & F & -> & _).
  change (2 ^ 22) with 4194304 in F.
  assert (H : 0 <= field / 2048 < 2 ^ 11).
  { change (2 ^ 11) with 2048.
    split; [apply Z.div_pos; lia|apply Z.div_lt_upper_bound; lia]. }
  pose proof (Z.mod_pos_bound field 2048 ltac:(lia)) as L.
  change (2 ^ 11) with 2048 in H.
  split; [change (2 ^ 31) with 2147483648; lia|].
  replace (field / 2048 * 65536) with (field / 2048 * 2 ^ 16)
    by (change (2 ^ 16) with 65536; lia).
  rewrite <- (lor_disjoint _ (field mod 2048) 16) by (change (2 ^ 16) with 65536; lia).
  change 134154239 with (Z.lor ((2 ^ 11 - 1) * 2 ^ 16) (2 ^ 11 - 1)).
  apply within_lor; [apply within_field|apply within_low];
    change (2 ^ 11) with 2048; lia.
Qed.

(** One more converter keeps the literal positions of the opcode. *)
Lemma parse_args_keeps_literals fs i m l literal b z opCode' :
  Forall (avoids literal) fs ->
  Z.land (z mod 2 ^ 32) literal = b ->
  parse_args fs i m l (Fin z) = inr opCode' ->
  Z.land (JsNumber.ToUint32 opCode') literal = b.
Proof.
  intros F. revert i z.
  induction F as [|f fs Ff F IH]; intros i z H; cbn [parse_args].
  - now intros [= <-].
  - destruct (m !! S i) as [text|]; [|discriminate].
    destruct (f text l) as [e|bits] eqn:E; [discriminate|].
    apply IH. cbn [JsNumber.ToInt32]. fold (Int32.wrap z).
    rewrite or_mod32, wrap_mod32, Z.land_lor_distr_l, H, (Ff text l bits E).
    apply Z.lor_0_r.
Qed.

Ltac avoid :=
  lazymatch goal with
  | |- avoids _ (reg ?o) =>
      apply (avoids_of_within (7 * 2 ^ o)); [apply reg_within; lia|vm_compute; reflexivity]
  | |- avoids _ (reg4 ?o) =>
      apply (avoids_of_within (15 * 2 ^ o)); [apply reg4_within; lia|vm_compute; reflexivity]
  | |- avoids _ (uint ?o ?b ?s) =>
      apply (avoids_of_within ((2 ^ b - 1) * 2 ^ o));
      [apply convertInt_within; lia|vm_compute; reflexivity]
  | |- avoids _ (sint ?o ?b ?s) =>
      apply (avoids_of_within ((2 ^ b - 1) * 2 ^ o));
      [apply convertInt_within; lia|vm_compute; reflexivity]
  | |- avoids _ (regOrImmediate ?o ?b) =>
      apply (avoids_of_within (Z.lor (7 * 2 ^ o) (2 ^ b)));
      [apply regOrImmediate_within; lia|vm_compute; reflexivity]
  | |- avoids _ rlistLr =>
      apply (avoids_of_within 511); [apply rlistLr_within|vm_compute; reflexivity]
  | |- avoids _ thumb2ImmediateT3 =>
      apply (avoids_of_within 68120831);
      [apply thumb2ImmediateT3_within|vm_compute; reflexivity]
  | |- avoids _ blAddr =>
      apply (avoids_of_within 134154239); [apply blAddr_within|vm_compute; reflexivity]
  | |- avoids _ (word_literal _) =>
      replace (literal_mask _) with 0 by (vm_compute; reflexivity); apply avoids_nothing
  end.

Ltac literal_row :=
  eexists; split; [vm_compute; reflexivity|];
  split; [change (2 ^ 32) with 4294967296; lia|];
  split; [vm_compute; reflexivity|];
  cbn [args]; repeat (constructor; [avoid|]); constructor.

Ltac literal_or_short :=
  first [ solve [right; literal_row]
        | left; cbn [base short_immediate_templates In]; tauto ].

Lemma ops_rows_keep_literals :
  Forall (fun entry =>
            Forall (fun op => In (base op) short_immediate_templates \/ row_keeps_literals op)
              (snd entry)) ops.
Proof.
  unfold ops, shift_op, alu, branch, fmt.
  repeat (constructor; [cbn [snd]; repeat (constructor; [literal_or_short|]); constructor|]).
  constructor.
Qed.

Lemma ops_get_rows (P : InstructionFormat -> Prop) opName
    (table : list (string * list InstructionFormat)) variants :
  Forall (fun entry => Forall P (snd entry)) table ->
  ops_get opName table = Some variants -> Forall P variants.
Proof.
  induction 1 as [|[k vs] table Hk Ht IH]; cbn [ops_get]; [discriminate|].
  destruct (String.eqb opName k); [|exact IH]. now intros [= <-].
Qed.

(** For every row of the table but the immediate-offset rows of [str],
    [strb], [ldr] and [ldrb], and whatever the operands, the opcode
    composed from the base and the converters agrees with the template
    at every literal position: the converters write into placeholder
    positions only. *)
Theorem converters_keep_literal_bits (opName : string) (variants : list InstructionFormat)
    (op : InstructionFormat) (m : list string) (labels : label_table) (opCode : number) :
  ops_get opName ops = Some variants -> In op variants ->
  ~ In (base op) short_immediate_templates ->
  parse_args (args op) 0 m labels (getOpCode (base op)) = inr opCode ->
  exists b,
    getOpCode (base op) = Fin b
    /\ Z.land (JsNumber.ToUint32 opCode) (literal_mask (base op)) = b.
Proof.
  intros G I N E.
  pose proof (ops_get_rows _ _ _ _ ops_rows_keep_literals G) as R.
  rewrite Forall_forall in R. specialize (R op ltac:(apply list_elem_of_In; exact I)).
  destruct R as [S|(b & Hb & Rb & Lb & Fa)]; [contradiction|].
  exists b. split; [exact Hb|]. rewrite Hb in E.
  apply (parse_args_keeps_literals _ _ _ _ _ b _ _ Fa) in E; [exact E|].
  rewrite Z.mod_small by exact Rb. exact Lb.
Qed.

(** On the branch of the loop: 0xD1FD keeps the literal byte 0xD1. *)
Lemma converters_keep_literal_bits_bne :
  exists b,
    getOpCode "11010001________" = Fin b
    /\ Z.land (JsNumber.ToUint32 (Fin 53757)) (literal_mask "11010001________") = b.
Proof.
  apply (converters_keep_literal_bits "bne" (branch "11010001________")
           (fmt "11010001________" Patterns.whole [sint 0 8 1]) ["loop"; "loop"]
           (<["PC" := 6]> (<["loop" := 0]> ∅)) (Fin 53757)).
  - reflexivity.
  - left. reflexivity.
  - cbn. intros [H|[H|[H|[]]]]; discriminate.
  - vm_compute. reflexivity.
Defined.

(** The immediate-offset rows are the exception: an offset of 64 or more
    sets bits 9 and 10, which their templates write as literal zeros. *)
Example short_template_overwritten :
  fst (assembleBlock ["str r0,[r1,#124]"]) = Some ["0x67c8"]
  /\ getOpCode "0110000---___---" = Fin 24576
  /\ literal_mask "0110000---___---" = 65024
  /\ Z.land 26568 65024 = 26112.
Proof. repeat split; vm_compute; reflexivity. Qed.

(* ===================================================================== *)
(** ** [rlistLr]: a register list is a set *)
(* ===================================================================== *)

Lemma rlistLr_loop_spec regs bits :
  0 <= bits < 2 ^ 9 ->
  rlistLr_loop regs bits
  = if forallb list_register_known regs
    then inr (fold_left (fun acc r => Z.lor acc (list_register_bits r)) regs bits)
    else inl (Error [Txt "Unknown register name "; Fun_reg]).
Proof.
  revert bits. induction regs as [|r regs IH]; intros bits Hb; cbn [rlistLr_loop forallb fold_left].
  - reflexivity.
  - fold (list_register_known r). fold (list_register_bits r).
    destruct (list_register_known r); cbn [negb andb]; [|reflexivity].
    pose proof (rlistLr_vals_bound (JsString.trim r)) as V. fold (list_register_bits r) in V.
    assert (E : bits .| list_register_bits r = Z.lor bits (list_register_bits r)).
    { apply or_small; change (2 ^ 9) with 512 in *; change (2 ^ 31) with 2147483648; lia. }
    rewrite E. apply IH. apply lor_bound; [lia|assumption|assumption].
Qed.

Lemma fold_lor_testbit regs bits n :
  Z.testbit (fold_left (fun acc r => Z.lor acc (list_register_bits r)) regs bits) n
  = Z.testbit bits n || existsb (fun r => Z.testbit (list_register_bits r) n) regs.
Proof.
  revert bits. induction regs as [|r regs IH]; intros bits; cbn [fold_left existsb].
  - now rewrite orb_false_r.
  - rewrite IH, Z.lor_spec. now rewrite orb_assoc.
Qed.

Lemma same_elements_forallb {A : Type} (p : A -> bool) (l l' : list A) :
  (forall x, In x l <-> In x l') -> forallb p l = forallb p l'.
Proof.
  intros H. apply eq_true_iff_eq. rewrite !forallb_forall.
  split; intros F x I; apply F, H, I.
Qed.

Lemma same_elements_existsb {A : Type} (p : A -> bool) (l l' : list A) :
  (forall x, In x l <-> In x l') -> existsb p l = existsb p l'.
Proof.
  intros H. apply eq_true_iff_eq. rewrite !existsb_exists.
  split; intros (x & I & P); exists x; (split; [apply H, I|exact P]).
Qed.

(** The result of [rlistLr] depends on which names the list holds, not
    on their order nor on how often each occurs: two texts whose
    comma-separated pieces are the same names give the same bits, or
    fail alike. *)
Theorem rlistLr_is_a_set (value value' : string) (labels labels' : label_table) :
  (forall r, In r (JsString.split_on "," value) <-> In r (JsString.split_on "," value')) ->
  rlistLr value labels = rlistLr value' labels'.
Proof.
  intros H. unfold rlistLr.
  rewrite !rlistLr_loop_spec by (change (2 ^ 9) with 512; lia).
  rewrite (same_elements_forallb _ _ _ H).
  destruct (forallb _ _); [|reflexivity]. f_equal.
  apply Z.bits_inj'. intros n Hn. rewrite !fold_lor_testbit.
  now rewrite (same_elements_existsb _ _ _ H).
Qed.

(** On the list of [push {r0,lr}], reordered and with [r0] repeated. *)
Lemma rlistLr_is_a_set_push : rlistLr "r0,lr" ∅ = rlistLr "lr,r0,r0" ∅.
Proof.
  apply rlistLr_is_a_set. intros r. cbn. tauto.
Defined.

(* ===================================================================== *)
(** ** [getOpCode]: the base opcode of a template *)
(* ===================================================================== *)

Lemma template_mask_bound keep binary :
  0 <= template_mask keep binary < 2 ^ Z.of_nat (String.length binary).
Proof.
  induction binary as [|b rest IH]; cbn [template_mask String.length].
  - change (2 ^ Z.of_nat 0) with 1. lia.
  - rewrite Nat2Z.inj_succ, Z.pow_succ_r by lia.
    pose proof (pow2_pos (Z.of_nat (String.length rest)) ltac:(lia)).
    destruct (keep b); lia.
Qed.

Lemma digits_of_template binary acc :
  all_chars template_char binary = true ->
  JsParse.digits 2 (getOpCode_base binary) acc
  = match binary, acc with
    | EmptyString, _ => acc
    | _, Some a => Some (a * 2 ^ Z.of_nat (String.length binary) + template_mask is_one binary)
    | _, None => Some (template_mask is_one binary)
    end.
Proof.
  revert acc. induction binary as [|b rest IH]; intros acc; cbn [all_chars]; [reflexivity|].
  intros H. apply andb_true_iff in H as [Hb Hrest].
  cbn [getOpCode_base JsParse.digits template_mask String.length].
  assert (D : JsParse.digit_value
                (if 0 <=? JsString.indexOf "-_" b then "0"%char else b)
              = Some (if is_one b then 1 else 0)).
  { unfold template_char in Hb. unfold is_one.
    destruct (JsString.char_eqb b "0") eqn:E0;
      [apply Ascii.eqb_eq in E0; subst b; reflexivity|].
    destruct (JsString.char_eqb b "1") eqn:E1;
      [apply Ascii.eqb_eq in E1; subst b; reflexivity|].
    destruct (JsString.char_eqb b "-") eqn:E2;
      [apply Ascii.eqb_eq in E2; subst b; reflexivity|].
    destruct (JsString.char_eqb b "_") eqn:E3;
      [apply Ascii.eqb_eq in E3; subst b; reflexivity|discriminate]. }
  rewrite D.
  assert (L : ((if is_one b then 1 else 0) <? 2) = true) by (destruct (is_one b); reflexivity).
  rewrite L, (IH _ Hrest).
  rewrite Nat2Z.inj_succ, Z.pow_succ_r by lia.
  destruct rest as [|b' rest'].
  - cbn [template_mask String.length]. change (2 ^ Z.of_nat 0) with 1.
    destruct acc, (is_one b); f_equal; lia.
  - destruct acc, (is_one b); f_equal; lia.
Qed.

(** For a template of at most 53 characters written with [0], [1], [-]
    and [_], [getOpCode] is the number whose binary digits are 1 exactly
    where the template has a [1]; it is below [2^length] and the branch
    for a negative value is never taken. *)
Theorem getOpCode_template (binary : string) :
  all_chars template_char binary = true ->
  binary <> EmptyString -> (String.length binary <= 53)%nat ->
  getOpCode binary = Fin (template_mask is_one binary)
  /\ 0 <= template_mask is_one binary < 2 ^ Z.of_nat (String.length binary)
  /\ JsNumber.ltb (JsParse.parseInt (getOpCode_base binary) 2) (Fin 0) = false.
Proof.
  intros H N L.
  pose proof (template_mask_bound is_one binary) as B.
  pose proof (pow2_le (Z.of_nat (String.length binary)) 53 ltac:(lia)) as P.
  assert (E : JsParse.parseInt (getOpCode_base binary) 2 = Fin (template_mask is_one binary)).
  { destruct binary as [|b rest]; [contradiction|].
    pose proof (digits_of_template (String b rest) None H) as D.
    cbn [all_chars] in H. apply andb_true_iff in H as [Hb _].
    unfold JsParse.parseInt.
    assert (T : JsString.trimStart (getOpCode_base (String b rest))
                = getOpCode_base (String b rest)
                /\ match getOpCode_base (String b rest) with
                   | String "-" t => (true, t)
                   | String "+" t => (false, t)
                   | _ => (false, getOpCode_base (String b rest))
                   end = (false, getOpCode_base (String b rest))).
    { cbn [getOpCode_base]. unfold template_char in Hb.
      destruct (JsString.char_eqb b "0") eqn:E0;
        [apply Ascii.eqb_eq in E0; subst b; split; reflexivity|].
      destruct (JsString.char_eqb b "1") eqn:E1;
        [apply Ascii.eqb_eq in E1; subst b; split; reflexivity|].
      destruct (JsString.char_eqb b "-") eqn:E2;
        [apply Ascii.eqb_eq in E2; subst b; split; reflexivity|].
      destruct (JsString.char_eqb b "_") eqn:E3;
        [apply Ascii.eqb_eq in E3; subst b; split; reflexivity|discriminate]. }
    destruct T as [T1 T2]. rewrite T1, T2.
    cbn [Z.eqb negb andb orb Z.ltb Z.compare Pos.compare Pos.compare_cont].
    change ((2 =? 16)%positive) with false. cbv iota beta.
    rewrite D. unfold JsNumber.round_nonneg.
    destruct (Z.ltb_spec (template_mask is_one (String b rest)) (2 ^ 53)) as [_|C];
      [reflexivity|lia]. }
  unfold getOpCode. rewrite E. cbn [JsNumber.ltb].
  destruct (Z.ltb_spec (template_mask is_one binary) 0) as [C|_]; [lia|].
  repeat split; lia.
Qed.

(** On the template of [bne]. *)
Lemma getOpCode_template_bne :
  getOpCode "11010001________" = Fin (template_mask is_one "11010001________")
  /\ 0 <= template_mask is_one "11010001________"
     < 2 ^ Z.of_nat (String.length "11010001________")
  /\ JsNumber.ltb (JsParse.parseInt (getOpCode_base "11010001________") 2) (Fin 0) = false.
Proof.
  apply getOpCode_template.
  - reflexivity.
  - discriminate.
  - cbn. lia.
Defined.

(* ===================================================================== *)
(** ** The engine: composition, blank lines, labels *)
(* ===================================================================== *)

Section EngineFacts.

Context {B : Type}.
Variable wordCallback : number -> B -> B.

Lemma forEach_app asmLines asmLines' (st : engine B) :
  forEach wordCallback (asmLines ++ asmLines') st
  = match forEach wordCallback asmLines st with
    | (inr _, st') => forEach wordCallback asmLines' st'
    | (inl e, st') => (inl e, st')
    end.
Proof.
  revert st. induction asmLines as [|line asmLines IH]; intros st.
  - reflexivity.
  - change ((line :: asmLines) ++ asmLines') with (line :: (asmLines ++ asmLines')).
    cbn [forEach].
    destruct (assemble_line wordCallback line st) as [[e|u] s1]; [reflexivity|apply IH].
Qed.

Lemma set_PC_twice (st : engine B) : set_PC (set_PC st) = set_PC st.
Proof.
  unfold set_PC. destruct (labels st) as [l|] eqn:E; cbn [labels addr newLabels sink].
  - do 2 f_equal. apply (insert_insert_eq (M := gmap string)).
  - now rewrite E.
Qed.

Lemma assemble_line_set_PC line (st : engine B) :
  assemble_line wordCallback line (set_PC st) = assemble_line wordCallback line st.
Proof.
  unfold assemble_line. fold (set_PC (set_PC st)). fold (set_PC st).
  now rewrite set_PC_twice.
Qed.

Lemma assemble_line_blank blank (st : engine B) :
  JsString.trim blank = EmptyString ->
  assemble_line wordCallback blank st = (inr tt, set_PC st).
Proof.
  intros H. unfold assemble_line. fold (set_PC st). rewrite H. reflexivity.
Qed.

(** Up to the value left in [labels.PC], running on from [set_PC st] is
    running on from [st]. *)
Lemma forEach_set_PC asmLines (st : engine B) :
  fst (forEach wordCallback asmLines (set_PC st)) = fst (forEach wordCallback asmLines st)
  /\ newLabels (snd (forEach wordCallback asmLines (set_PC st)))
     = newLabels (snd (forEach wordCallback asmLines st))
  /\ sink (snd (forEach wordCallback asmLines (set_PC st)))
     = sink (snd (forEach wordCallback asmLines st)).
Proof.
  destruct asmLines as [|line asmLines]; cbn [forEach].
  - unfold done_, set_PC. destruct (labels st); repeat split.
  - rewrite assemble_line_set_PC. repeat split.
Qed.

(** A line of white space only can be dropped from the input. *)
Lemma assembleInternal_blank before blank after labels0 sink0 :
  JsString.trim blank = EmptyString ->
  assembleInternal wordCallback (before ++ blank :: after) labels0 sink0
  = assembleInternal wordCallback (before ++ after) labels0 sink0.
Proof.
  intros H. unfold assembleInternal. rewrite !forEach_app.
  destruct (forEach wordCallback before _) as [[e|u] s1]; [reflexivity|].
  cbn [forEach]. rewrite (assemble_line_blank blank s1 H).
  destruct (forEach_set_PC after s1) as (F & N & S).
  destruct (forEach wordCallback after (set_PC s1)) as [r1 t1].
  destruct (forEach wordCallback after s1) as [r2 t2].
  cbn [fst snd] in *. subst r2. destruct r1; congruence.
Qed.

End EngineFacts.

(** Lines that are empty after trimming do not change what
    [assembleBlock] returns nor what it logs, in the source and in the
    compiled build. *)
Theorem blank_lines_are_ignored (before after : list string) (blank : string) :
  JsString.trim blank = EmptyString ->
  assembleBlock (before ++ blank :: after) = assembleBlock (before ++ after)
  /\ Bin.assembleBlock (before ++ blank :: after) = Bin.assembleBlock (before ++ after).
Proof.
  intros H. unfold assembleBlock, Bin.assembleBlock, assemble, Bin.assemble.
  rewrite (assembleInternal_blank _ before blank after None tt H).
  destruct (assembleInternal _ (before ++ after) None tt) as [[e|l] u]; [split; reflexivity|].
  rewrite !(assembleInternal_blank _ before blank after _ _ H). split; reflexivity.
Qed.

(** On the loop with a line of two spaces after the label. *)
Lemma blank_lines_are_ignored_loop :
  assembleBlock (["loop:"] ++ "  " :: ["sub r0,#1"; "bne loop"])
  = assembleBlock (["loop:"] ++ ["sub r0,#1"; "bne loop"])
  /\ Bin.assembleBlock (["loop:"] ++ "  " :: ["sub r0,#1"; "bne loop"])
     = Bin.assembleBlock (["loop:"] ++ ["sub r0,#1"; "bne loop"]).
Proof. apply blank_lines_are_ignored. reflexivity. Defined.

Section LabelFacts.

Context {B : Type}.
Variable wordCallback : number -> B -> B.

Lemma set_PC_fields (st : engine B) :
  addr (set_PC st) = addr st /\ newLabels (set_PC st) = newLabels st
  /\ sink (set_PC st) = sink st.
Proof. unfold set_PC. destruct (labels st); repeat split. Qed.

(** What a label line does. *)
Lemma assemble_line_label line (st : engine B) :
  is_label_line line = true ->
  assemble_line wordCallback line st
  = if js_in (newLabels st !! label_name line) (label_name line)
    then (inl (Error [Txt "Label '"; Txt (label_name line); Txt "' was already defined"]),
          set_PC st)
    else (inr tt, {| addr := addr st;
                     newLabels := <[label_name line := addr st]> (newLabels st);
                     labels := labels (set_PC st); sink := sink st |}).
Proof.
  unfold is_label_line. intros H. apply andb_true_iff in H as [H1 H2].
  unfold assemble_line. fold (set_PC st).
  destruct (bool_decide (JsString.trim line = EmptyString)); [discriminate|].
  rewrite H2. fold (label_name line).
  destruct (set_PC_fields st) as (-> & -> & ->). reflexivity.
Qed.

(** A line that completes leaves [newLabels] alone or binds one fresh
    name to the current address. *)
Lemma assemble_line_newLabels line (st st' : engine B) u :
  assemble_line wordCallback line st = (inr u, st') ->
  newLabels st' = newLabels st
  \/ exists name, newLabels st !! name = None
                  /\ newLabels st' = <[name := addr st]> (newLabels st).
Proof.
  unfold assemble_line. fold (set_PC st).
  destruct (set_PC_fields st) as (A & N & _). rewrite <- A, <- N.
  generalize (set_PC st). clear A N st. intros st. unfold done_, throw.
  destruct (bool_decide _); [intros [= <- <-]; now left|].
  destruct (bool_decide _).
  { match goal with |- context [js_in (?o) ?k] => destruct o eqn:L; cbn [js_in] end;
      [discriminate|].
    destruct (JsString.inherited _); [discriminate|].
    intros [= <- <-]. right. eexists. split; [exact L|reflexivity]. }
  destruct (tokenize _) as [opName blob].
  destruct (negb _); [discriminate|].
  destruct (ops_get opName ops) as [variants|].
  - intros H. apply search_ops_success in H as (_ & _ & _ & ->). now left.
  - destruct (0 <? inherited_length opName); discriminate.
Qed.

Lemma size_of_cases op : size_of op = 2 \/ size_of op = 4.
Proof. unfold size_of. destruct (_ <? _); auto. Qed.

Lemma line_size_cases line : line_size line = 0 \/ line_size line = 2 \/ line_size line = 4.
Proof.
  unfold line_size. destruct (selected_variant line) as [op|]; [|auto].
  destruct (size_of_cases op); auto.
Qed.

Lemma total_size_even asmLines : 0 <= total_size asmLines /\ total_size asmLines mod 2 = 0.
Proof.
  induction asmLines as [|line asmLines [IH1 IH2]]; cbn [total_size fold_right].
  - split; [lia|reflexivity].
  - fold (total_size asmLines).
    destruct (line_size_cases line) as [-> |[-> | ->]];
      (split; [lia|]); rewrite Zplus_mod, IH2; reflexivity.
Qed.

(** Addresses already bound stay bound, to the same address. *)
Lemma forEach_keeps_labels asmLines (st st' : engine B) u name a :
  forEach wordCallback asmLines st = (inr u, st') ->
  newLabels st !! name = Some a -> newLabels st' !! name = Some a.
Proof.
  revert st. induction asmLines as [|line asmLines IH]; intros st; cbn [forEach].
  - unfold done_. now intros [= <- <-].
  - destruct (assemble_line wordCallback line st) as [[e|v] s1] eqn:E; [discriminate|].
    intros H L. apply (IH s1 H).
    destruct (assemble_line_newLabels line st s1 v E) as [-> |(k & Hk & ->)]; [exact L|].
    unfold label_table in *. rewrite lookup_insert_ne; [exact L|]. intros ->. congruence.
Qed.

(** When [forEach] completes, [addr] has grown by the sizes of the lines
    and every label is bound to an address that [addr] went through. *)
Lemma forEach_labels asmLines (st st' : engine B) u :
  forEach wordCallback asmLines st = (inr u, st') ->
  addr st' = addr st + total_size asmLines
  /\ forall name a,
       newLabels st' !! name = Some a ->
       newLabels st !! name = Some a
       \/ exists before after,
            asmLines = before ++ after /\ a = addr st + total_size before.
Proof.
  revert st. induction asmLines as [|line asmLines IH]; intros st;
    cbn [forEach total_size fold_right].
  - unfold done_. intros [= <- <-]. split; [lia|]. intros name a L. now left.
  - fold (total_size asmLines).
    destruct (assemble_line wordCallback line st) as [[e|v] s1] eqn:E; [discriminate|].
    intros H. destruct (IH s1 H) as [A L].
    destruct (assemble_line_success wordCallback line st s1 v E) as [A1 _].
    split; [lia|]. intros name a Hn.
    destruct (L name a Hn) as [Old|(before & after & -> & ->)].
    + destruct (assemble_line_newLabels line st s1 v E) as [N|(k & Hk & N)];
        rewrite N in Old; [now left|].
      destruct (decide (k = name)) as [->|D].
      * unfold label_table in *. rewrite lookup_insert_eq in Old. injection Old as <-.
        right. exists [], (line :: asmLines). split; [reflexivity|]. cbn. lia.
      * unfold label_table in *. rewrite lookup_insert_ne in Old by exact D. now left.
    + right. exists (line :: before), after. split; [reflexivity|].
      cbn [total_size fold_right]. fold (total_size before). lia.
Qed.

End LabelFacts.

Lemma total_size_app before after :
  total_size (before ++ after) = total_size before + total_size after.
Proof.
  induction before as [|line before IH]; cbn [total_size fold_right app].
  - reflexivity.
  - fold (total_size (before ++ after)). fold (total_size before). lia.
Qed.

(** Every label pass 1 binds is the address of a point between two lines:
    the sizes of the lines before it, an even number between 0 and the
    size of the whole fragment. *)
Theorem labels_are_line_addresses (asmLines : list string) (labels : label_table)
    (name : string) (a : Z) :
  pass1 asmLines = inr labels -> labels !! name = Some a ->
  (exists before after, asmLines = before ++ after /\ a = total_size before)
  /\ 0 <= a <= total_size asmLines /\ a mod 2 = 0.
Proof.
  unfold pass1, assembleInternal.
  destruct (forEach _ asmLines _) as [[e|u] st'] eqn:E; cbn [fst]; [discriminate|].
  intros [= <-] L.
  destruct (forEach_labels _ asmLines _ st' u E) as [_ H].
  destruct (H name a L) as [Old|(before & after & -> & ->)].
  - cbn [newLabels] in Old. unfold label_table in *. rewrite lookup_empty in Old. discriminate.
  - cbn [addr]. rewrite total_size_app.
    pose proof (total_size_even before) as [B1 B2].
    pose proof (total_size_even after) as [A1 _].
    split; [exists before, after; split; [reflexivity|lia]|].
    rewrite Z.add_0_l. split; [lia|exact B2].
Qed.

(** On the label after a 32-bit and a 16-bit instruction. *)
Lemma labels_are_line_addresses_target :
  (exists before after,
      ["bl target"; "nop"; "target:"; "bx lr"] = before ++ after /\ 6 = total_size before)
  /\ 0 <= 6 <= total_size ["bl target"; "nop"; "target:"; "bx lr"] /\ 6 mod 2 = 0.
Proof.
  apply (labels_are_line_addresses _ (<["target" := 6]> ∅) "target" 6).
  - vm_compute. reflexivity.
  - vm_compute. reflexivity.
Defined.

(** Pass 1 throws on an input that defines a label twice. *)
Lemma pass1_label_twice before line between after :
  is_label_line line = true ->
  exists e, pass1 (before ++ line :: between ++ line :: after) = inl e.
Proof.
  intros L. unfold pass1, assembleInternal.
  set (cb := fun (_ : number) (u : unit) => u).
  rewrite forEach_app.
  destruct (forEach cb before _) as [[e|u] s1]; [eauto|].
  cbn [forEach].
  rewrite (assemble_line_label cb line s1 L).
  destruct (js_in (newLabels s1 !! label_name line) (label_name line)); [eauto|].
  set (s2 := {| addr := addr s1; newLabels := _; labels := _; sink := _ |}).
  assert (N2 : newLabels s2 !! label_name line = Some (addr s1)).
  { subst s2. cbn [newLabels]. unfold label_table. apply lookup_insert_eq. }
  rewrite forEach_app.
  destruct (forEach cb between s2) as [[e|u3] s3] eqn:E3; [eauto|].
  pose proof (forEach_keeps_labels cb between s2 s3 u3 _ _ E3 N2) as N3.
  cbn [forEach]. rewrite (assemble_line_label cb line s3 L), N3. cbn [js_in]. eauto.
Qed.

(** An input in which the same label line occurs twice is refused:
    [assembleBlock] returns [undefined], in the source and in the
    compiled build, whatever surrounds the two lines. *)
Theorem label_defined_twice_fails (before between after : list string) (line : string) :
  is_label_line line = true ->
  fst (assembleBlock (before ++ line :: between ++ line :: after)) = None
  /\ fst (Bin.assembleBlock (before ++ line :: between ++ line :: after)) = None.
Proof.
  intros L. destruct (pass1_label_twice before line between after L) as [e E].
  unfold assembleBlock, Bin.assembleBlock.
  rewrite assemble_passes, Bin_assemble_passes, E. split; reflexivity.
Qed.

(** On a label defined before and after a [nop]. *)
Lemma label_defined_twice_fails_loop :
  fst (assembleBlock ([] ++ "a:" :: ["nop"] ++ "a:" :: [])) = None
  /\ fst (Bin.assembleBlock ([] ++ "a:" :: ["nop"] ++ "a:" :: [])) = None.
Proof. apply label_defined_twice_fails. reflexivity. Defined.

(** When both passes complete, pass 2 emits one word for every two bytes
    of the sizes of the lines. *)
Lemma passes_word_count asmLines labels labels2 words :
  pass1 asmLines = inr labels -> pass2 asmLines labels = (inr labels2, words) ->
  2 * Z.of_nat (length words) = total_size asmLines.
Proof.
  unfold pass1, pass2, assembleInternal.
  set (i1 := {| addr := 0; newLabels := ∅; labels := None; sink := tt |}).
  set (i2 := {| addr := 0; newLabels := ∅; labels := Some labels; sink := [] |}).
  pose proof (forEach_words asmLines i2) as W.
  destruct (forEach (fun _ (u : unit) => u) asmLines i1) as [[e|u1] s1] eqn:E1;
    cbn [fst]; [discriminate|].
  destruct (forEach Bin.push_word asmLines i2) as [[e|u2] s2] eqn:E2; [discriminate|].
  intros _ [= _ <-].
  destruct (forEach_labels _ asmLines i2 s2 u2 E2) as [A _].
  subst i2. cbn [snd addr sink length] in W, A. lia.
Qed.

(** The number of elements returned: the source returns one string for
    every two bytes of the sizes of the lines and never pads; the
    compiled build returns one more element when that count is odd. *)
Theorem output_length (asmLines : list string) :
  (forall out, fst (assembleBlock asmLines) = Some out ->
               2 * Z.of_nat (length out) = total_size asmLines)
  /\ (forall out, fst (Bin.assembleBlock asmLines) = Some out ->
                  Z.of_nat (length out)
                  = total_size asmLines / 2 + (total_size asmLines / 2) mod 2).
Proof.
  split; intros out.
  - unfold assembleBlock. rewrite assemble_passes.
    destruct (pass1 asmLines) as [e|l] eqn:P1; [discriminate|].
    destruct (pass2 asmLines l) as [[e|l2] words] eqn:P2; [discriminate|].
    cbn [fst]. intros [= <-]. rewrite replay_push_hex, length_map.
    exact (passes_word_count _ _ _ _ P1 P2).
  - unfold Bin.assembleBlock. rewrite Bin_assemble_passes.
    destruct (pass1 asmLines) as [e|l] eqn:P1; [discriminate|].
    destruct (pass2 asmLines l) as [[e|l2] words] eqn:P2; [discriminate|].
    cbn [fst]. intros [= <-]. rewrite replay_push_word, length_map.
    pose proof (passes_word_count _ _ _ _ P1 P2) as C.
    replace (total_size asmLines / 2) with (Z.of_nat (length words))
      by (rewrite <- C, Z.mul_comm, Z.div_mul; lia).
    pose proof (Z.mod_pos_bound (Z.of_nat (length words)) 2 ltac:(lia)) as M.
    destruct (Z.eqb_spec (Z.of_nat (length words) mod 2) 1) as [E|E].
    + rewrite length_app. cbn [length]. lia.
    + lia.
Qed.

(** On the single line [nop]. *)
Lemma output_length_nop :
  2 * Z.of_nat (length ["0x46c0"]) = total_size ["nop"].
Proof.
  apply (proj1 (output_length ["nop"])). vm_compute. reflexivity.
Defined.

(* ===================================================================== *)
(** ** Label references *)
(* ===================================================================== *)

Lemma of_Z_exact z : - 2 ^ 53 < z < 2 ^ 53 -> JsNumber.of_Z z = Fin z.
Proof.
  intros H. unfold JsNumber.of_Z, JsNumber.round_nonneg.
  destruct (Z.ltb_spec z 0).
  - destruct (Z.ltb_spec (- z) (2 ^ 53)); [|lia]. cbn [JsNumber.negate]. f_equal. lia.
  - destruct (Z.ltb_spec z (2 ^ 53)); [reflexivity|lia].
Qed.

(** An operand that is a bare name, without [#] in front and without
    [+]: when the label table binds it, the value is its address minus
    [labels.PC]; when the name is neither bound nor inherited from
    [Object.prototype], the converter throws the unknown-label error. *)
Theorem label_reference (name : string) (labels : label_table) :
  JsString.head name <> Some "#"%char -> occurs "+" name = false ->
  match labels !! name with
  | Some a =>
      forall pc, labels !! "PC" = Some pc ->
                 - 2 ^ 52 < a < 2 ^ 52 -> - 2 ^ 52 < pc < 2 ^ 52 ->
                 convertInt_value name labels = inr (name, Fin (a - pc))
  | None =>
      JsString.inherited name = false ->
      convertInt_value name labels
      = inl (Error [Txt "Unknown label '"; Txt name; Txt "'"])
  end.
Proof.
  intros Hh Hp. unfold convertInt_value.
  destruct (bool_decide (JsString.head name = Some "#"%char)) eqn:D;
    [apply bool_decide_eq_true in D; contradiction|].
  pose proof (indexOf_from_spec "+" name 0) as I. rewrite Hp in I.
  unfold JsString.indexOf. rewrite I. cbn [Z.leb Z.compare].
  destruct (labels !! name) as [a|] eqn:L; cbn [js_in].
  - intros pc Hpc Ha Hc. rewrite Hpc.
    unfold JsNumber.sub, JsNumber.add at 2.
    change (2 ^ 52) with 4503599627370496 in *.
    rewrite of_Z_exact by (change (2 ^ 53) with 9007199254740992; lia).
    cbn [JsNumber.negate JsNumber.add].
    rewrite of_Z_exact by (change (2 ^ 53) with 9007199254740992; lia).
    do 3 f_equal. lia.
  - intros ->. reflexivity.
Qed.

(** On the branch of the loop, at [PC = 6]. *)
Lemma label_reference_loop :
  convertInt_value "loop" (<["PC" := 6]> (<["loop" := 0]> ∅)) = inr ("loop", Fin (0 - 6)).
Proof.
  pose proof (label_reference "loop" (<["PC" := 6]> (<["loop" := 0]> ∅))
                ltac:(discriminate) eq_refl) as H.
  replace ((<["PC" := 6]> (<["loop" := 0]> ∅) : label_table) !! "loop") with (Some 0) in H
    by (vm_compute; reflexivity).
  apply H; [vm_compute; reflexivity|lia|lia].
Defined.

(* ===================================================================== *)
(** ** Lines that cannot be assembled; lines the tokenizer reads as written *)
(* ===================================================================== *)

Lemma assemble_line_unselected {B : Type} (wordCallback : number -> B -> B)
    line (st : engine B) :
  JsString.trim line <> EmptyString -> is_label_line line = false ->
  selected_variant line = None ->
  exists e, fst (assemble_line wordCallback line st) = inl e.
Proof.
  intros Hn Hl. unfold selected_variant, assemble_line, is_label_line in *.
  fold (set_PC st). generalize (set_PC st). clear st. intros st.
  destruct (bool_decide (JsString.trim line = EmptyString)) eqn:E;
    [apply bool_decide_eq_true in E; contradiction|].
  cbn [negb andb] in Hl. rewrite Hl.
  destruct (tokenize (JsString.trim line)) as [opName blob].
  destruct (ops_get opName ops) as [variants|]; cbn [js_in].
  - cbn [negb]. intros F.
    pose proof (search_ops_selects wordCallback variants blob (JsString.trim line) st) as S.
    rewrite F in S. rewrite S. eexists. reflexivity.
  - intros _. destruct (negb (JsString.inherited opName)); [eexists; reflexivity|].
    destruct (0 <? inherited_length opName); eexists; reflexivity.
Qed.

(** One line that is neither blank nor a label and selects no variant,
    be it for an unknown mnemonic or for operands no pattern matches,
    makes the whole call return [undefined], wherever it stands. *)
Theorem unassemblable_line_fails (before after : list string) (line : string) :
  JsString.trim line <> EmptyString -> is_label_line line = false ->
  selected_variant line = None ->
  fst (assembleBlock (before ++ line :: after)) = None
  /\ fst (Bin.assembleBlock (before ++ line :: after)) = None.
Proof.
  intros Hn Hl Hs.
  assert (P : exists e, pass1 (before ++ line :: after) = inl e).
  { unfold pass1, assembleInternal. rewrite forEach_app.
    destruct (forEach _ before _) as [[e|u] s1]; [eauto|].
    cbn [forEach].
    destruct (assemble_line_unselected (fun _ (u : unit) => u) line s1 Hn Hl Hs) as [e E].
    destruct (assemble_line _ line s1) as [[e'|u'] s2]; cbn [fst] in E; [eauto|discriminate]. }
  destruct P as [e E]. unfold assembleBlock, Bin.assembleBlock.
  rewrite assemble_passes, Bin_assemble_passes, E. split; reflexivity.
Qed.

(** On a bare [wfe] between two [nop]. *)
Lemma unassemblable_line_fails_wfe :
  fst (assembleBlock (["nop"] ++ "wfe" :: ["nop"])) = None
  /\ fst (Bin.assembleBlock (["nop"] ++ "wfe" :: ["nop"])) = None.
Proof.
  apply unassemblable_line_fails; [discriminate|reflexivity|reflexivity].
Defined.

Lemma not_blank_occurs mnemonic :
  all_chars not_blank mnemonic = true ->
  occurs tab mnemonic = false /\ occurs " " mnemonic = false.
Proof.
  induction mnemonic as [|a s IH]; cbn [all_chars occurs]; [split; reflexivity|].
  intros H. apply andb_true_iff in H as [Ha Hs]. destruct (IH Hs) as [-> ->].
  unfold not_blank, is_blank, tab in *. apply negb_true_iff, orb_false_iff in Ha as [-> ->].
  split; reflexivity.
Qed.

(** The tokenizer takes a line as written, mnemonic up to the first blank
    and operands with their blanks removed, when that first blank is a
    tab, or when it is a space and no tab follows. *)
Theorem tokenize_as_written (mnemonic operands : string) (separator : ascii) :
  all_chars not_blank mnemonic = true ->
  separator = tab \/ (separator = " "%char /\ occurs tab operands = false) ->
  tokenize (mnemonic +:+ String separator operands)
  = (mnemonic, JsString.trim (JsString.remove_blanks operands)).
Proof.
  intros Hm Hs. destruct (not_blank_occurs mnemonic Hm) as [Ht Hsp].
  assert (L : (JsString.length mnemonic <? 0) = false)
    by (apply Z.ltb_ge; unfold JsString.length; lia).
  unfold tokenize, JsString.indexOf.
  destruct Hs as [->|[-> Ho]].
  - fold tab. rewrite (indexOf_from_first tab mnemonic operands 0 Ht), Z.add_0_l.
    rewrite L. cbv iota. rewrite L.
    rewrite (tokenize_at mnemonic (String tab operands) _ eq_refl). reflexivity.
  - pose proof (indexOf_from_spec tab (mnemonic +:+ String " " operands) 0) as I.
    rewrite occurs_app in I. cbn [occurs] in I. rewrite Ht, Ho in I. cbn in I.
    fold tab. rewrite I. cbn [Z.ltb Z.compare].
    rewrite (indexOf_from_first " " mnemonic operands 0 Hsp), Z.add_0_l. rewrite L.
    rewrite (tokenize_at mnemonic (String " " operands) _ eq_refl). reflexivity.
Qed.

(** On a space-separated line with a space inside the operands. *)
Lemma tokenize_as_written_mov : tokenize ("mov" +:+ String " " "r0, #1") = ("mov", "r0,#1").
Proof.
  apply (tokenize_as_written "mov" "r0, #1" " ").
  - reflexivity.
  - right. split; reflexivity.
Defined.
